(** * The to-do screen of todo-react-native: state, handlers and display

    A shallow embedding of the [App] component found, in two near-identical
    variants, in [src/app/index.tsx] and [src/unnamed/part_001].  The
    component keeps five [useState] cells, mutates them from event handlers
    that close over the values of the render that created them, writes the
    whole collection to [AsyncStorage] under the key ["my-todo"], and hands
    a filtered, reversed array to [FlatList].

    JavaScript arrays are objects: [todos.map], [todos.filter] and the
    spread [[...todos, newTodo]] allocate a new array, [Array.prototype.reverse]
    works in place and returns its receiver.  The embedding therefore keeps
    arrays in a heap addressed by references.

    The handlers that write to the store are [async]: they stop at
    [await AsyncStorage.setItem(...)] and go on only when the store has
    accepted the write; no handler catches a rejected write, so what
    follows the [await] is then never run.  The embedding keeps the rest of
    a suspended handler and lets the store accept or reject each call. *)

From stdpp Require Import base numbers option list gmap strings.
From Stdlib Require Import QArith Qcanon.

Local Close Scope Qc_scope.
Local Close Scope Q_scope.
Local Open Scope N_scope.

(** ** JavaScript values *)

(** A JavaScript string is a sequence of UTF-16 code units. *)
Abbreviation jsstring := (list N).

(** String literals of the source are ASCII. *)
Definition js (s : string) : jsstring :=
  Ascii.N_of_ascii <$> String.list_ascii_of_string s.

(** [WhiteSpace] and [LineTerminator] code points of ECMAScript, the ones
    [String.prototype.trim] strips: TAB, LF, VT, FF, CR, SP, NBSP, the
    other space separators, LS, PS and the byte-order mark. *)
Definition isWhiteSpace (c : N) : bool :=
  bool_decide (c ∈ [0x9; 0xA; 0xB; 0xC; 0xD; 0x20; 0xA0; 0x1680; 0x2028;
                    0x2029; 0x202F; 0x205F; 0x3000; 0xFEFF])
  || ((0x2000 <=? c) && (c <=? 0x200A)).

Fixpoint trimStart (s : jsstring) : jsstring :=
  match s with
  | c :: s' => if isWhiteSpace c then trimStart s' else s
  | [] => []
  end.

Definition trimEnd (s : jsstring) : jsstring :=
  reverse (trimStart (reverse s)).

(** [s.trim()] *)
Definition trim (s : jsstring) : jsstring := trimEnd (trimStart s).

(** [s.startsWith(t)] at position 0 *)
Fixpoint startsWith (s t : jsstring) {struct t} : bool :=
  match t, s with
  | [], _ => true
  | _ :: _, [] => false
  | b :: t', a :: s' => bool_decide (a = b) && startsWith s' t'
  end.

(** [s.includes(t)]: [t] occurs in [s] at some position. *)
Fixpoint includes (s t : jsstring) : bool :=
  startsWith s t ||
  match s with
  | [] => false
  | _ :: s' => includes s' t
  end.

(** Truthiness of a string: only the empty string is falsy. *)
Definition truthy_string (s : jsstring) : bool :=
  match s with [] => false | _ :: _ => true end.

(** The identifiers are JavaScript numbers that the program only compares
    with [===] and tests for truthiness.  They come from [Math.random()] or
    from [JSON.parse], neither of which yields [NaN] or an infinity, and a
    finite double is an exact rational. *)
Abbreviation number := Qc.

(** Truthiness of a [number | null]: [null] and [0] are falsy. *)
Definition truthy_id (o : option number) : bool :=
  match o with
  | None => false
  | Some n => bool_decide (n ≠ Q2Qc 0)
  end.

(** [type ToDoType = { id: number; title: string; isDone: boolean }] *)
Record ToDoType := {
  id : number;
  title : jsstring;
  isDone : bool;
}.

Global Instance ToDoType_eq_dec : EqDecision ToDoType.
Proof. solve_decision. Defined.

(** ** The component's state and its world *)

(** Array references. *)
Abbreviation loc := positive.

(** The five [useState] cells; [todos] holds a reference. *)
Record State := {
  todos : loc;
  todoText : jsstring;
  searchQuery : jsstring;
  editingTodoId : option number;
  successMessage : jsstring;
}.

(** Calls that leave the component, recorded when they are made.  The
    timer's callback is always [() => setSuccessMessage("")]. *)
Inductive Effect :=
  | SetItem (key : jsstring) (value : list ToDoType)
  | GetItem (key : jsstring)
  | ConsoleError
  | KeyboardDismiss
  | SetTimeout (ms : N).

(** The heap of arrays, the state cells, the key-value store, the calls
    made so far and the source of [Math.random()].  A stored value is the
    text [JSON.stringify] produced, identified with the collection it
    denotes: it is a copy by value and shares nothing with the heap. *)
Record World := {
  heap : gmap loc (list ToDoType);
  ui : State;
  storage : gmap jsstring (list ToDoType);
  effects : list Effect;
  entropy : nat → number;
  drawn : nat;
}.

(** The array a reference points to. *)
Definition deref (w : World) (l : loc) : list ToDoType :=
  default [] (heap w !! l).

(** The task collection of a world: what the [todos] cell refers to. *)
Definition collection (w : World) : list ToDoType := deref w (todos (ui w)).

Definition with_heap (f : gmap loc (list ToDoType) → gmap loc (list ToDoType))
    (w : World) : World :=
  {| heap := f (heap w); ui := ui w; storage := storage w;
     effects := effects w; entropy := entropy w; drawn := drawn w |}.

Definition with_ui (f : State → State) (w : World) : World :=
  {| heap := heap w; ui := f (ui w); storage := storage w;
     effects := effects w; entropy := entropy w; drawn := drawn w |}.

Definition emit (e : Effect) (w : World) : World :=
  {| heap := heap w; ui := ui w; storage := storage w;
     effects := effects w ++ [e]; entropy := entropy w; drawn := drawn w |}.

(** ** A state monad over the world *)

Definition M (A : Type) : Type := World → A * World.

Global Instance M_ret : MRet M := λ A a w, (a, w).
Global Instance M_bind : MBind M := λ A B f m w, let '(a, w') := m w in f a w'.

Definition exec {A} (m : M A) (w : World) : World := (m w).2.

(** *** Arrays *)

Definition Array_read (l : loc) : M (list ToDoType) :=
  λ w, (deref w l, w).

Definition Array_new (xs : list ToDoType) : M loc :=
  λ w, let l := fresh (dom (heap w)) in (l, with_heap <[l := xs]> w).

(** [a.map(f)] *)
Definition Array_map (f : ToDoType → ToDoType) (l : loc) : M loc :=
  xs ← Array_read l; Array_new (f <$> xs).

(** [a.filter(p)] *)
Definition Array_filter (P : ToDoType → Prop) `{∀ x, Decision (P x)}
    (l : loc) : M loc :=
  xs ← Array_read l; Array_new (filter P xs).

(** [[...a, x]] *)
Definition Array_spread_with (l : loc) (x : ToDoType) : M loc :=
  xs ← Array_read l; Array_new (xs ++ [x]).

(** [a.reverse()]: reverses [a] in place and returns [a] itself. *)
Definition Array_reverse (l : loc) : M loc :=
  λ w, (l, with_heap (alter reverse l) w).

(** *** State setters and outside calls *)

Definition setTodos (l : loc) : M unit :=
  λ w, ((), with_ui (λ s, {| todos := l; todoText := todoText s;
    searchQuery := searchQuery s; editingTodoId := editingTodoId s;
    successMessage := successMessage s |}) w).

Definition setTodoText (t : jsstring) : M unit :=
  λ w, ((), with_ui (λ s, {| todos := todos s; todoText := t;
    searchQuery := searchQuery s; editingTodoId := editingTodoId s;
    successMessage := successMessage s |}) w).

Definition setSearchQuery (q : jsstring) : M unit :=
  λ w, ((), with_ui (λ s, {| todos := todos s; todoText := todoText s;
    searchQuery := q; editingTodoId := editingTodoId s;
    successMessage := successMessage s |}) w).

Definition setEditingTodoId (o : option number) : M unit :=
  λ w, ((), with_ui (λ s, {| todos := todos s; todoText := todoText s;
    searchQuery := searchQuery s; editingTodoId := o;
    successMessage := successMessage s |}) w).

Definition setSuccessMessage (m : jsstring) : M unit :=
  λ w, ((), with_ui (λ s, {| todos := todos s; todoText := todoText s;
    searchQuery := searchQuery s; editingTodoId := editingTodoId s;
    successMessage := m |}) w).

(** [JSON.stringify(a)] reads the array behind the reference. *)
Definition JSON_stringify (l : loc) : M (list ToDoType) := Array_read l.

(** [JSON.parse(text)] of a stored collection builds a new array. *)
Definition JSON_parse (text : list ToDoType) : M loc := Array_new text.

(** [console.error(error)] *)
Definition console_error : M unit := λ w, ((), emit ConsoleError w).

Definition Keyboard_dismiss : M unit := λ w, ((), emit KeyboardDismiss w).

(** [setTimeout(() => setSuccessMessage(""), ms)] *)
Definition setTimeout_clearMessage (ms : N) : M unit :=
  λ w, ((), emit (SetTimeout ms) w).

(** [Math.random()] *)
Definition Math_random : M number :=
  λ w, (entropy w (drawn w),
    {| heap := heap w; ui := ui w; storage := storage w;
       effects := effects w; entropy := entropy w; drawn := S (drawn w) |}).

(** ** Asynchronous code

    An [async] function runs until it awaits a call to [AsyncStorage],
    is suspended there with the rest of its body, and goes on when the
    call is settled.  A fulfilled call hands its result to the rest; a
    rejected one makes the [await] throw, and what follows is skipped up to
    the nearest [catch], if there is one. *)

(** The calls to the store, [AsyncStorage.setItem(key, value)] and
    [AsyncStorage.getItem(key)]. *)
Inductive Call :=
  | AsyncStorage_setItem (key : jsstring) (value : list ToDoType)
  | AsyncStorage_getItem (key : jsstring).

(** How a call is settled: fulfilled, for [getItem] with the stored text or
    [null], or rejected. *)
Inductive Reply :=
  | Fulfilled (result : option (list ToDoType))
  | Rejected.

(** Where a piece of asynchronous code stands: it has returned, it has
    thrown, or it waits for a call with the rest of its body. *)
Inductive Step (A : Type) : Type :=
  | Returned (a : A) (w : World)
  | Thrown (w : World)
  | Awaiting (c : Call) (w : World) (rest : Reply → World → Step A).

Arguments Returned {A} a w.
Arguments Thrown {A} w.
Arguments Awaiting {A} c w rest.

Definition Async (A : Type) : Type := World → Step A.

Fixpoint andThen {A B} (st : Step A) (f : A → Async B) : Step B :=
  match st with
  | Returned a w => f a w
  | Thrown w => Thrown w
  | Awaiting c w rest => Awaiting c w (λ r w', andThen (rest r w') f)
  end.

(** [try { ... } catch (error) { ... }] *)
Fixpoint orCatch {A} (st : Step A) (handler : Async A) : Step A :=
  match st with
  | Returned a w => Returned a w
  | Thrown w => handler w
  | Awaiting c w rest => Awaiting c w (λ r w', orCatch (rest r w') handler)
  end.

Global Instance Async_ret : MRet Async := λ A a w, Returned a w.
Global Instance Async_bind : MBind Async := λ A B f m w, andThen (m w) f.

Definition tryCatch {A} (body handler : Async A) : Async A :=
  λ w, orCatch (body w) handler.

(** A synchronous piece of an asynchronous body. *)
Definition now {A} (m : M A) : Async A :=
  λ w, let '(a, w') := m w in Returned a w'.

(** [await c]: the call is made, and recorded, and the body is suspended
    until the store has settled it. *)
Definition await (c : Call) : Async (option (list ToDoType)) :=
  λ w, Awaiting c
    (emit match c with
          | AsyncStorage_setItem key value => SetItem key value
          | AsyncStorage_getItem key => GetItem key
          end w)
    (λ r w', match r with
             | Fulfilled result => Returned result w'
             | Rejected => Thrown w'
             end).

(** The store settles a call: it accepts it, writing the value or reading
    what it holds, or it rejects it and stays as it is. *)
Definition settleCall (c : Call) (ok : bool) (w : World) : Reply * World :=
  if ok then
    match c with
    | AsyncStorage_setItem key value =>
        (Fulfilled None,
         {| heap := heap w; ui := ui w;
            storage := <[key := value]> (storage w);
            effects := effects w; entropy := entropy w; drawn := drawn w |})
    | AsyncStorage_getItem key => (Fulfilled (storage w !! key), w)
    end
  else (Rejected, w).

(** The world a piece of asynchronous code leaves behind when every call it
    awaits is settled at once, all accepted ([ok = true]) or all rejected;
    an exception nobody catches ends it where it was thrown. *)
Fixpoint finish {A} (ok : bool) (st : Step A) : World :=
  match st with
  | Returned _ w => w
  | Thrown w => w
  | Awaiting c w rest =>
      let '(r, w') := settleCall c ok w in finish ok (rest r w')
  end.

Definition outcome {A} (ok : bool) (m : Async A) (w : World) : World :=
  finish ok (m w).

(** ** The event handlers ([src/unnamed/part_001])

    A handler is a closure of one render: it reads the state cells as that
    render saw them, the argument [s], and requests updates through the
    setters. *)

(** [todo.id === editingTodoId ? { ...todo, title: todoText } : todo] *)
Definition retitle (s : State) (todo : ToDoType) : ToDoType :=
  if decide (Some (id todo) = editingTodoId s)
  then {| id := id todo; title := todoText s; isDone := isDone todo |}
  else todo.

(** [todo.id === id ? { ...todo, isDone: !todo.isDone } : todo] *)
Definition flipDone (id0 : number) (todo : ToDoType) : ToDoType :=
  if decide (id todo = id0)
  then {| id := id todo; title := title todo; isDone := negb (isDone todo) |}
  else todo.

Definition updateTodo (s : State) : Async unit :=
  updatedTodos ← now (Array_map (retitle s) (todos s));
  now (setTodos updatedTodos);;
  text ← now (JSON_stringify updatedTodos);
  await (AsyncStorage_setItem (js "my-todo") text);;
  now (setSuccessMessage (js "Todo edited successfully!"));;
  now (setEditingTodoId None).

Definition addTodo (s : State) : Async unit :=
  r ← now Math_random;
  let newTodo := {| id := r; title := todoText s; isDone := false |} in
  updatedTodos ← now (Array_spread_with (todos s) newTodo);
  now (setTodos updatedTodos);;
  text ← now (JSON_stringify updatedTodos);
  await (AsyncStorage_setItem (js "my-todo") text);;
  now (setSuccessMessage (js "Todo added successfully!")).

Definition resetTodoInput : M unit :=
  setTodoText [];;
  Keyboard_dismiss;;
  setTimeout_clearMessage 3000.

Definition addOrUpdateTodo (s : State) : Async unit :=
  if decide (trim (todoText s) = []) then mret ()
  else
    (if truthy_id (editingTodoId s) then updateTodo s else addTodo s);;
    now resetTodoInput.

Definition deleteTodo (s : State) (id0 : number) : Async unit :=
  updatedTodos ← now (Array_filter (λ todo, id todo ≠ id0) (todos s));
  now (setTodos updatedTodos);;
  text ← now (JSON_stringify updatedTodos);
  await (AsyncStorage_setItem (js "my-todo") text);;
  now (setSuccessMessage (js "Todo deleted successfully!"));;
  now (setTimeout_clearMessage 3000).

Definition handleDone (s : State) (id0 : number) : Async unit :=
  updatedTodos ← now (Array_map (flipDone id0) (todos s));
  now (setTodos updatedTodos);;
  text ← now (JSON_stringify updatedTodos);
  await (AsyncStorage_setItem (js "my-todo") text);;
  mret ().

Definition editTodo (id0 : number) (title0 : jsstring) : M unit :=
  setEditingTodoId (Some id0);;
  setTodoText title0.

(** [loadTodos], run once by [useEffect] ([getTodos] in
    [src/app/index.tsx]): the stored text is asked for; if there is one it
    is parsed into a new array; a rejected [getItem] is caught and logged.
    The store of this model holds the texts this program writes, the
    serialized collections, so [JSON.parse] has nothing here to throw on. *)
Definition loadTodos : Async unit :=
  tryCatch
    (storedTodos ← await (AsyncStorage_getItem (js "my-todo"));
     match storedTodos with
     | Some text => parsed ← now (JSON_parse text); now (setTodos parsed)
     | None => mret ()
     end)
    (now console_error).

(** [src/app/index.tsx] writes [addOrUpdateTodo] in one piece; its other
    handlers are those above, word for word. *)
Module Index.

Definition addOrUpdateTodo (s : State) : Async unit :=
  if decide (trim (todoText s) = []) then mret ()
  else
    (if truthy_id (editingTodoId s) then
       updatedTodos ← now (Array_map (retitle s) (todos s));
       now (setTodos updatedTodos);;
       text ← now (JSON_stringify updatedTodos);
       await (AsyncStorage_setItem (js "my-todo") text);;
       now (setSuccessMessage (js "Todo edited successfully!"));;
       now (setEditingTodoId None)
     else
       r ← now Math_random;
       let newTodo := {| id := r; title := todoText s; isDone := false |} in
       updatedTodos ← now (Array_spread_with (todos s) newTodo);
       now (setTodos updatedTodos);;
       text ← now (JSON_stringify updatedTodos);
       await (AsyncStorage_setItem (js "my-todo") text);;
       now (setSuccessMessage (js "Todo added successfully!")));;
    now (setTodoText []);;
    now Keyboard_dismiss;;
    now (setTimeout_clearMessage 3000).

End Index.

(** An event runs the handler of the current render; the store settles the
    write the handler awaits before anything else happens, accepting it or
    rejecting it. *)
Definition fireWith (ok : bool) (h : State → Async unit) (w : World) : World :=
  outcome ok (h (ui w)) w.

(** The run in which the store accepts the write. *)
Definition fire (h : State → Async unit) (w : World) : World :=
  fireWith true h w.

(** ** The operations of the task store, as the screen offers them

    [submit], [toggleDone] and [remove] are the runs in which the store
    accepts the write at once; [submitWith], [toggleDoneWith] and
    [removeWith] leave the fate of the write open. *)

(** The text field is bound to [todoText] ([onChangeText={setTodoText}]);
    pressing the button calls [addOrUpdateTodo]. *)
Definition submitWith (ok : bool) (text : jsstring) (w : World) : World :=
  fireWith ok addOrUpdateTodo (exec (setTodoText text) w).

Definition toggleDoneWith (ok : bool) (id0 : number) (w : World) : World :=
  fireWith ok (λ s, handleDone s id0) w.

Definition removeWith (ok : bool) (id0 : number) (w : World) : World :=
  fireWith ok (λ s, deleteTodo s id0) w.

Definition submit (text : jsstring) (w : World) : World :=
  fire addOrUpdateTodo (exec (setTodoText text) w).

Definition toggleDone (id0 : number) (w : World) : World :=
  fire (λ s, handleDone s id0) w.

Definition remove (id0 : number) (w : World) : World :=
  fire (λ s, deleteTodo s id0) w.

Definition beginEdit (id0 : number) (title0 : jsstring) (w : World) : World :=
  exec (editTodo id0 title0) w.

(** ** Search and display *)

Section Display.

(** [String.prototype.toLowerCase], a built-in of the engine. *)
Variable toLowerCase : jsstring → jsstring.

(** [todo.title.toLowerCase().includes(searchQuery.toLowerCase())] *)
Definition matchesQuery (q : jsstring) (todo : ToDoType) : Prop :=
  includes (toLowerCase (title todo)) (toLowerCase q) = true.

Global Instance matchesQuery_dec q todo : Decision (matchesQuery q todo).
Proof. unfold matchesQuery. apply _. Defined.

(** [const filteredTodos = searchQuery ? todos.filter(...) : todos] *)
Definition filteredTodos (s : State) : M loc :=
  if truthy_string (searchQuery s)
  then Array_filter (matchesQuery (searchQuery s)) (todos s)
  else mret (todos s).

(** [data={filteredTodos.reverse()}], in [part_001] inside [TodoList],
    which receives [filteredTodos] as its [todos] prop. *)
Definition FlatList_data (s : State) : M loc :=
  shown ← filteredTodos s;
  Array_reverse shown.

(** One render of the screen: the list handed to [FlatList] and the world
    the render leaves behind. *)
Definition render (w : World) : list ToDoType * World :=
  let '(l, w') := FlatList_data (ui w) w in (deref w' l, w').

(** [search(collection, query)]: the filtered view of a world whose query
    cell holds [query]. *)
Definition search (query : jsstring) (w : World) : list ToDoType * World :=
  let '(l, w') := filteredTodos (ui (exec (setSearchQuery query) w))
                    (exec (setSearchQuery query) w) in
  (deref w' l, w').

End Display.

(** [toLowerCase] on strings of ASCII code units. *)
Definition ascii_toLowerCase (s : jsstring) : jsstring :=
  (λ c, if (0x41 <=? c) && (c <=? 0x5A) then c + 0x20 else c) <$> s.

(** ** Notions the properties are stated with *)

(** A text that is empty or consists of white space only. *)
Definition allWhiteSpace (s : jsstring) : Prop :=
  Forall (λ c, isWhiteSpace c = true) s.

(** [selects P l k]: [k] consists of exactly the elements of [l] that
    satisfy [P], each as often as in [l] and in the order of [l]. *)
Inductive selects {A : Type} (P : A → Prop) : list A → list A → Prop :=
  | selects_nil : selects P [] []
  | selects_keep x l k : P x → selects P l k → selects P (x :: l) (x :: k)
  | selects_skip x l k : ¬ P x → selects P l k → selects P (x :: l) k.

(** The title contains the query as a substring once both are brought to
    lower case. *)
Definition containsIgnoringCase (toLowerCase : jsstring → jsstring)
    (q : jsstring) (todo : ToDoType) : Prop :=
  ∃ pre post, toLowerCase (title todo) = pre ++ toLowerCase q ++ post.

(** A task with its title replaced, [{ ...todo, title: text }]. *)
Definition withTitle (text : jsstring) (todo : ToDoType) : ToDoType :=
  {| id := id todo; title := text; isDone := isDone todo |}.

(** Submitting under a stale edit target changes nothing. *)
Definition staleSubmitIsNoop (w : World) (text : jsstring) (target : number)
    : Prop :=
  trim text ≠ [] →
  editingTodoId (ui w) = Some target →
  (∀ todo, todo ∈ collection w → id todo ≠ target) →
  collection (submit text w) = collection w
  ∧ editingTodoId (ui (submit text w)) = editingTodoId (ui w)
  ∧ storage (submit text w) = storage w
  ∧ successMessage (ui (submit text w)) = successMessage (ui w).

(** Submitting while the task at position [i] is the edit target replaces
    the title of that one task and clears the edit target. *)
Definition editReplacesOne (w : World) (text : jsstring) (i : nat)
    (todo : ToDoType) : Prop :=
  trim text ≠ [] →
  collection w !! i = Some todo →
  editingTodoId (ui w) = Some (id todo) →
  collection (submit text w) = <[i := withTitle text todo]> (collection w)
  ∧ editingTodoId (ui (submit text w)) = None.

(** ** Sample data *)

Definition buyMilk : ToDoType :=
  {| id := Q2Qc (1 # 2); title := js "Buy Milk"; isDone := false |}.

Definition cleanHouse : ToDoType :=
  {| id := Q2Qc (1 # 4); title := js "Clean House"; isDone := false |}.

(** A second task carrying the identifier of [buyMilk]. *)
Definition buyBread : ToDoType :=
  {| id := Q2Qc (1 # 2); title := js "Buy Bread"; isDone := true |}.

(** A task whose identifier is [0]. *)
Definition walkDog : ToDoType :=
  {| id := Q2Qc 0; title := js "Walk dog"; isDone := false |}.

(** A screen showing the collection [xs], in step with the store, with the
    given search query and edit target; [Math.random()] will return
    [0.125], [0.0625], and so on. *)
Definition screen (xs : list ToDoType) (query : jsstring)
    (target : option number) : World :=
  {| heap := {[ 1%positive := xs ]};
     ui := {| todos := 1%positive; todoText := []; searchQuery := query;
              editingTodoId := target; successMessage := [] |};
     storage := {[ js "my-todo" := xs ]};
     effects := [];
     entropy := λ n, Q2Qc (1 # 2 ^ Pos.of_succ_nat (S (S n)));
     drawn := 0 |}.

(** The screen at first start: nothing stored, [useState([])]. *)
Definition firstStart : World := outcome true loadTodos
  {| heap := {[ 1%positive := [] ]};
     ui := {| todos := 1%positive; todoText := []; searchQuery := [];
              editingTodoId := None; successMessage := [] |};
     storage := ∅;
     effects := [];
     entropy := λ n, Q2Qc (1 # 2 ^ Pos.of_succ_nat n);
     drawn := 0 |}.

(** ** The screen as a whole *)

(** The initial values of the five cells: [useState([])], [useState("")],
    [useState("")], [useState(null)], [useState("")]. *)
Definition initialState : State :=
  {| todos := 1%positive; todoText := []; searchQuery := [];
     editingTodoId := None; successMessage := [] |}.

(** The component over a store before its effect has run: the cells have
    their initial values and the empty array of [useState([])] is
    allocated. *)
Definition unmounted (kv : gmap jsstring (list ToDoType))
    (rnd : nat → number) : World :=
  {| heap := {[ 1%positive := [] ]}; ui := initialState; storage := kv;
     effects := []; entropy := rnd; drawn := 0 |}.

(** Mounting the component over a store: the effect with the empty
    dependency list loads the stored collection, the store answering the
    read. *)
Definition mount (kv : gmap jsstring (list ToDoType)) (rnd : nat → number)
    : World :=
  outcome true loadTodos (unmounted kv rnd).

(** What the store holds under ["my-todo"], nothing counting as the empty
    collection. *)
Definition stored (w : World) : list ToDoType :=
  default [] (storage w !! js "my-todo").

(** The label of the button, [{editingTodoId ? "Update" : "Add"}]. *)
Definition buttonLabel (s : State) : jsstring :=
  if truthy_id (editingTodoId s) then js "Update" else js "Add".

(** The callback of every timer, [() => setSuccessMessage("")]. *)
Definition clearMessage : M unit := setSuccessMessage [].

(** What can happen to the mounted screen.  A [ToDoItem] calls
    [handleDone(todo.id)], [editTodo(todo.id, todo.title)] and
    [deleteTodo(todo.id)] for the task it shows; here the arguments are
    left free. *)
Inductive Event :=
  | TypeText (text : jsstring)
  | TypeQuery (query : jsstring)
  | PressSubmit
  | PressCheckbox (id0 : number)
  | PressEdit (id0 : number) (title0 : jsstring)
  | PressDelete (id0 : number)
  | TimerFires
  | Render.

Section Events.

Variable toLowerCase : jsstring → jsstring.

(** Each event runs its handler on the current state, the store accepting
    the handler's write before the next event; a render evaluates the
    [data] prop of [FlatList]. *)
Definition react (e : Event) (w : World) : World :=
  match e with
  | TypeText text => exec (setTodoText text) w
  | TypeQuery query => exec (setSearchQuery query) w
  | PressSubmit => fire addOrUpdateTodo w
  | PressCheckbox id0 => fire (λ s, handleDone s id0) w
  | PressEdit id0 title0 => exec (editTodo id0 title0) w
  | PressDelete id0 => fire (λ s, deleteTodo s id0) w
  | TimerFires => exec clearMessage w
  | Render => (render toLowerCase w).2
  end.

Definition run (es : list Event) (w : World) : World :=
  foldl (λ w e, react e w) w es.

End Events.

(** ** Handlers in flight

    Between the moment a handler makes its call to the store and the moment
    the store settles it, the rest of the handler waits while other events
    go on; the store may settle the calls it has received in any order. *)

(** The world together with the handlers that wait, each with the call it
    awaits. *)
Record Screen := {
  world : World;
  waiting : list (Call * (Reply → World → Step unit));
}.

Definition idle (w : World) : Screen := {| world := w; waiting := [] |}.

(** Where a piece of asynchronous code has got to: if it awaits a call it
    joins the waiting ones. *)
Definition park (st : Step unit)
    (others : list (Call * (Reply → World → Step unit))) : Screen :=
  match st with
  | Returned _ w => {| world := w; waiting := others |}
  | Thrown w => {| world := w; waiting := others |}
  | Awaiting c w rest => {| world := w; waiting := others ++ [(c, rest)] |}
  end.

(** A handler starts and runs up to its first [await]. *)
Definition launch (m : Async unit) (s : Screen) : Screen :=
  park (m (world s)) (waiting s).

(** The store settles the [n]-th call it has received and not yet settled,
    and the handler that awaited it goes on. *)
Definition settle (n : nat) (ok : bool) (s : Screen) : Screen :=
  match waiting s !! n with
  | None => s
  | Some (c, rest) =>
      let '(r, w) := settleCall c ok (world s) in
      park (rest r w) (delete n (waiting s))
  end.

Inductive Happening :=
  | Does (e : Event)
  | Settles (n : nat) (ok : bool).

Section Happenings.

Variable toLowerCase : jsstring → jsstring.

Definition happen (h : Happening) (s : Screen) : Screen :=
  match h with
  | Does PressSubmit => launch (addOrUpdateTodo (ui (world s))) s
  | Does (PressCheckbox id0) => launch (handleDone (ui (world s)) id0) s
  | Does (PressDelete id0) => launch (deleteTodo (ui (world s)) id0) s
  | Does e => {| world := react toLowerCase e (world s);
                 waiting := waiting s |}
  | Settles n ok => settle n ok s
  end.

Definition play (hs : list Happening) (s : Screen) : Screen :=
  foldl (λ s h, happen h s) s hs.

End Happenings.

(** The component mounted over a store, its read of the store under way. *)
Definition boot (kv : gmap jsstring (list ToDoType)) (rnd : nat → number)
    : Screen :=
  launch loadTodos (idle (unmounted kv rnd)).

(** The history in which the store accepts every call as soon as it is
    made. *)
Definition promptly (es : list Event) : list Happening :=
  es ≫= λ e, [Does e; Settles 0 true].

(** The edit target a screen shows. *)
Definition editing (s : Screen) : option number :=
  editingTodoId (ui (world s)).

(** The code run from [st] stops at the call [c] in the world [w1]; when
    the call is accepted, in whatever world that finds, it runs [tail] and
    returns; when the call is rejected it ends there. *)
Definition suspendsAt (st : Step unit) (c : Call) (w1 : World)
    (tail : M unit) : Prop :=
  ∃ rest, st = Awaiting c w1 rest
    ∧ (∀ x w2, rest (Fulfilled x) w2 = Returned () (exec tail w2))
    ∧ (∀ w2, rest Rejected w2 = Thrown w2).

(** A waiting handler that, once its call is settled, ends without a
    further call, and leaves the edit target as it finds it unless the call
    was accepted, when it may also clear it. *)
Definition keepsOrClears (rest : Reply → World → Step unit) : Prop :=
  ∀ r w, ∃ w',
    (rest r w = Returned () w' ∨ rest r w = Thrown w')
    ∧ (editingTodoId (ui w') = editingTodoId (ui w)
       ∨ (r ≠ Rejected ∧ editingTodoId (ui w') = None)).

(** Every handler that waits on a screen is of that kind. *)
Definition quiet (s : Screen) : Prop :=
  Forall (λ p, keepsOrClears p.2) (waiting s).

(** The reference in the [todos] cell points to an array of the heap. *)
Definition allocated (w : World) : Prop :=
  is_Some (heap w !! todos (ui w)).

(** The store holds the collection in its order or in the reverse one. *)
Definition storeFollows (w : World) : Prop :=
  stored w = collection w ∨ stored w = reverse (collection w).

(** The identifiers of the collection are the values of pairwise different
    draws among those made so far from [rnd]. *)
Definition drawnIds (rnd : nat → number) (w : World) : Prop :=
  entropy w = rnd
  ∧ ∃ ks : list nat,
      NoDup ks ∧ Forall (λ k, (k < drawn w)%nat) ks
      ∧ id <$> collection w = rnd <$> ks.

(** A source of random numbers without repetition: [0.5], [0.25], ... *)
Definition halving (n : nat) : number := Q2Qc (1 # 2 ^ Pos.of_succ_nat n).

(** No title of the list is blank. *)
Definition titlesNotBlank (xs : list ToDoType) : Prop :=
  Forall (λ todo, trim (title todo) ≠ []) xs.

(** * Properties *)

(** ** Strings *)

Lemma trimStart_nil s : trimStart s = [] ↔ allWhiteSpace s.
Proof.
  unfold allWhiteSpace. induction s as [|c s IH]; simpl.
  - split; [constructor | done].
  - destruct (isWhiteSpace c) eqn:Hc.
    + rewrite IH. split; [by constructor | by inversion 1].
    + split; [done | inversion 1; congruence].
Qed.

Lemma trimStart_head s c r : trimStart s = c :: r → isWhiteSpace c = false.
Proof.
  induction s as [|a s IH]; simpl; [done|].
  destruct (isWhiteSpace a) eqn:Ha; [done|]. by intros [= <- _].
Qed.

(** [text.trim() === ""] holds exactly for the blank texts. *)
Lemma trim_nil s : trim s = [] ↔ allWhiteSpace s.
Proof.
  unfold trim, trimEnd. split.
  - intros H. apply trimStart_nil.
    destruct (trimStart s) as [|c r] eqn:Hs; [done|].
    apply (f_equal reverse) in H. rewrite reverse_involutive in H.
    simpl in H. apply trimStart_nil in H.
    unfold allWhiteSpace in H. rewrite Forall_reverse in H.
    apply Forall_cons_1 in H as [H _].
    apply trimStart_head in Hs. congruence.
  - intros H. apply trimStart_nil in H. by rewrite H.
Qed.

Lemma startsWith_prefix s t : startsWith s t = true ↔ ∃ post, s = t ++ post.
Proof.
  revert s. induction t as [|b t IH]; intros s; simpl.
  - split; [by exists s | done].
  - destruct s as [|a s]; simpl.
    + split; [done | by intros [? ?]].
    + rewrite andb_true_iff, bool_decide_eq_true, IH. split.
      * intros [-> [post ->]]. by exists post.
      * intros [post [= -> ->]]. eauto.
Qed.

Lemma includes_infix s t :
  includes s t = true ↔ ∃ pre post, s = pre ++ t ++ post.
Proof.
  induction s as [|a s IH]; simpl.
  - rewrite orb_false_r, startsWith_prefix. split.
    + intros [post ->]. by exists [], post.
    + intros (pre & post & H). symmetry in H.
      apply app_eq_nil in H as [-> H]. apply app_eq_nil in H as [-> ->].
      by exists [].
  - rewrite orb_true_iff, startsWith_prefix, IH. split.
    + intros [[post ->] | (pre & post & ->)].
      * by exists [], post.
      * by exists (a :: pre), post.
    + intros (pre & post & H). destruct pre as [|b pre]; simpl in H.
      * left. eauto.
      * right. injection H as -> ->. eauto.
Qed.

(** ** What each handler leaves behind *)

(** Unfolds synchronous code around a world. *)
Ltac run_handler :=
  cbv beta iota zeta delta
    [beginEdit exec resetTodoInput editTodo
     Array_map Array_filter Array_spread_with Array_reverse Array_new
     JSON_stringify JSON_parse console_error Array_read setTodos
     setSuccessMessage setEditingTodoId setTodoText setSearchQuery
     Keyboard_dismiss setTimeout_clearMessage Math_random mbind M_bind
     mret M_ret collection deref emit with_ui with_heap fst snd];
  cbn [heap ui storage effects entropy drawn
       todos todoText searchQuery editingTodoId successMessage].

(** Runs a handler on a world given by its fields. *)
Ltac run_async :=
  cbv beta iota zeta delta
    [submit toggleDone remove submitWith toggleDoneWith removeWith beginEdit
     fire fireWith outcome finish settleCall andThen orCatch tryCatch now
     await exec loadTodos
     addOrUpdateTodo updateTodo addTodo resetTodoInput deleteTodo handleDone
     editTodo Array_map Array_filter Array_spread_with Array_reverse Array_new
     JSON_stringify JSON_parse console_error Array_read setTodos
     setSuccessMessage setEditingTodoId setTodoText setSearchQuery
     Keyboard_dismiss setTimeout_clearMessage Math_random mbind M_bind
     Async_bind mret M_ret Async_ret collection deref emit with_ui with_heap
     fst snd heap ui storage effects entropy drawn
     todos todoText searchQuery editingTodoId successMessage].

Lemma fresh_heap (w : World) : heap w !! fresh (dom (heap w)) = None.
Proof. apply not_elem_of_dom, is_fresh. Qed.

(** X20: the two source files agree on [addOrUpdateTodo]: the handler
    written in one piece in [src/app/index.tsx] and the one of
    [src/unnamed/part_001], which calls [updateTodo], [addTodo] and
    [resetTodoInput], are the same function of the render's state and the
    world. *)
Lemma addOrUpdateTodo_agree s : Index.addOrUpdateTodo s = addOrUpdateTodo s.
Proof.
  unfold Index.addOrUpdateTodo, addOrUpdateTodo, updateTodo, addTodo,
    resetTodoInput.
  destruct (decide _); [done|]. by destruct (truthy_id _).
Qed.

Lemma addOrUpdateTodo_blank_with ok w :
  trim (todoText (ui w)) = [] → fireWith ok addOrUpdateTodo w = w.
Proof.
  intros H. unfold fireWith, outcome, addOrUpdateTodo.
  rewrite decide_True by done. done.
Qed.

Lemma addOrUpdateTodo_blank w :
  trim (todoText (ui w)) = [] → fire addOrUpdateTodo w = w.
Proof. apply addOrUpdateTodo_blank_with. Qed.

Lemma submit_blank text w :
  trim text = [] → submit text w = exec (setTodoText text) w.
Proof. intros H. unfold submit. by rewrite addOrUpdateTodo_blank. Qed.

Lemma submitWith_blank ok text w :
  trim text = [] → submitWith ok text w = exec (setTodoText text) w.
Proof.
  intros H. unfold submitWith. by rewrite addOrUpdateTodo_blank_with.
Qed.

(** The update path, whatever becomes of the write: the collection is
    replaced and the write requested before the [await]; message, edit
    target, text field, keyboard and timer come after it. *)
Lemma submitWith_update ok text w :
  trim text ≠ [] → truthy_id (editingTodoId (ui w)) = true →
  let s := ui (exec (setTodoText text) w) in
  let l := fresh (dom (heap w)) in
  let xs := retitle s <$> collection w in
  submitWith ok text w =
    {| heap := <[l := xs]> (heap w);
       ui := {| todos := l; todoText := if ok then [] else text;
                searchQuery := searchQuery (ui w);
                editingTodoId := if ok then None else editingTodoId (ui w);
                successMessage :=
                  if ok then js "Todo edited successfully!"
                  else successMessage (ui w) |};
       storage := if ok then <[js "my-todo" := xs]> (storage w)
                  else storage w;
       effects := effects w ++ SetItem (js "my-todo") xs
                  :: (if ok then [KeyboardDismiss; SetTimeout 3000] else []);
       entropy := entropy w; drawn := drawn w |}.
Proof.
  intros Ht He. unfold submitWith, fireWith, outcome, addOrUpdateTodo.
  change (todoText (ui (exec (setTodoText text) w))) with text.
  change (editingTodoId (ui (exec (setTodoText text) w)))
    with (editingTodoId (ui w)).
  rewrite decide_False by done. rewrite He. clear Ht He.
  destruct w as [h [l t q e m] st ef en dr].
  destruct ok; run_async; rewrite lookup_insert_eq; cbn [default];
    by rewrite <- ?(assoc_L (++)).
Qed.

(** The add path, whatever becomes of the write. *)
Lemma submitWith_add ok text w :
  trim text ≠ [] → truthy_id (editingTodoId (ui w)) = false →
  let l := fresh (dom (heap w)) in
  let xs := collection w ++
    [{| id := entropy w (drawn w); title := text; isDone := false |}] in
  submitWith ok text w =
    {| heap := <[l := xs]> (heap w);
       ui := {| todos := l; todoText := if ok then [] else text;
                searchQuery := searchQuery (ui w);
                editingTodoId := editingTodoId (ui w);
                successMessage :=
                  if ok then js "Todo added successfully!"
                  else successMessage (ui w) |};
       storage := if ok then <[js "my-todo" := xs]> (storage w)
                  else storage w;
       effects := effects w ++ SetItem (js "my-todo") xs
                  :: (if ok then [KeyboardDismiss; SetTimeout 3000] else []);
       entropy := entropy w; drawn := S (drawn w) |}.
Proof.
  intros Ht He. unfold submitWith, fireWith, outcome, addOrUpdateTodo.
  change (todoText (ui (exec (setTodoText text) w))) with text.
  change (editingTodoId (ui (exec (setTodoText text) w)))
    with (editingTodoId (ui w)).
  rewrite decide_False by done. rewrite He. clear Ht He.
  destruct w as [h [l t q e m] st ef en dr].
  destruct ok; run_async; rewrite lookup_insert_eq; cbn [default];
    by rewrite <- ?(assoc_L (++)).
Qed.

Lemma submit_update text w :
  trim text ≠ [] → truthy_id (editingTodoId (ui w)) = true →
  let s := ui (exec (setTodoText text) w) in
  let l := fresh (dom (heap w)) in
  let xs := retitle s <$> collection w in
  submit text w =
    {| heap := <[l := xs]> (heap w);
       ui := {| todos := l; todoText := []; searchQuery := searchQuery (ui w);
                editingTodoId := None;
                successMessage := js "Todo edited successfully!" |};
       storage := <[js "my-todo" := xs]> (storage w);
       effects := effects w ++
         [SetItem (js "my-todo") xs; KeyboardDismiss; SetTimeout 3000];
       entropy := entropy w; drawn := drawn w |}.
Proof. intros Ht He. exact (submitWith_update true text w Ht He). Qed.

Lemma submit_add text w :
  trim text ≠ [] → truthy_id (editingTodoId (ui w)) = false →
  let l := fresh (dom (heap w)) in
  let xs := collection w ++
    [{| id := entropy w (drawn w); title := text; isDone := false |}] in
  submit text w =
    {| heap := <[l := xs]> (heap w);
       ui := {| todos := l; todoText := []; searchQuery := searchQuery (ui w);
                editingTodoId := editingTodoId (ui w);
                successMessage := js "Todo added successfully!" |};
       storage := <[js "my-todo" := xs]> (storage w);
       effects := effects w ++
         [SetItem (js "my-todo") xs; KeyboardDismiss; SetTimeout 3000];
       entropy := entropy w; drawn := S (drawn w) |}.
Proof. intros Ht He. exact (submitWith_add true text w Ht He). Qed.

Lemma collection_submitWith_update ok text w :
  trim text ≠ [] → truthy_id (editingTodoId (ui w)) = true →
  collection (submitWith ok text w)
  = retitle (ui (exec (setTodoText text) w)) <$> collection w.
Proof.
  intros Ht He. rewrite submitWith_update by done.
  unfold collection at 1, deref. cbn [heap ui todos].
  by rewrite lookup_insert_eq.
Qed.

Lemma collection_submitWith_add ok text w :
  trim text ≠ [] → truthy_id (editingTodoId (ui w)) = false →
  collection (submitWith ok text w)
  = collection w
    ++ [{| id := entropy w (drawn w); title := text; isDone := false |}].
Proof.
  intros Ht He. rewrite submitWith_add by done.
  unfold collection at 1, deref. cbn [heap ui todos].
  by rewrite lookup_insert_eq.
Qed.

Lemma collection_submit_update text w :
  trim text ≠ [] → truthy_id (editingTodoId (ui w)) = true →
  collection (submit text w)
  = retitle (ui (exec (setTodoText text) w)) <$> collection w.
Proof.
  intros Ht He. rewrite submit_update by done.
  unfold collection at 1, deref. cbn [heap ui todos].
  by rewrite lookup_insert_eq.
Qed.

Lemma collection_submit_add text w :
  trim text ≠ [] → truthy_id (editingTodoId (ui w)) = false →
  collection (submit text w)
  = collection w
    ++ [{| id := entropy w (drawn w); title := text; isDone := false |}].
Proof.
  intros Ht He. rewrite submit_add by done.
  unfold collection at 1, deref. cbn [heap ui todos].
  by rewrite lookup_insert_eq.
Qed.

(** [handleDone], whatever becomes of the write: nothing follows the
    [await]. *)
Lemma toggleDoneWith_world ok id0 w :
  let l := fresh (dom (heap w)) in
  let xs := flipDone id0 <$> collection w in
  toggleDoneWith ok id0 w =
    {| heap := <[l := xs]> (heap w);
       ui := {| todos := l; todoText := todoText (ui w);
                searchQuery := searchQuery (ui w);
                editingTodoId := editingTodoId (ui w);
                successMessage := successMessage (ui w) |};
       storage := if ok then <[js "my-todo" := xs]> (storage w)
                  else storage w;
       effects := effects w ++ [SetItem (js "my-todo") xs];
       entropy := entropy w; drawn := drawn w |}.
Proof.
  destruct w as [h [l t q e m] st ef en dr].
  destruct ok; run_async; by rewrite lookup_insert_eq.
Qed.

(** [deleteTodo], whatever becomes of the write: the message and the timer
    follow the [await]. *)
Lemma removeWith_world ok id0 w :
  let l := fresh (dom (heap w)) in
  let xs := filter (λ todo, id todo ≠ id0) (collection w) in
  removeWith ok id0 w =
    {| heap := <[l := xs]> (heap w);
       ui := {| todos := l; todoText := todoText (ui w);
                searchQuery := searchQuery (ui w);
                editingTodoId := editingTodoId (ui w);
                successMessage :=
                  if ok then js "Todo deleted successfully!"
                  else successMessage (ui w) |};
       storage := if ok then <[js "my-todo" := xs]> (storage w)
                  else storage w;
       effects := effects w ++ SetItem (js "my-todo") xs
                  :: (if ok then [SetTimeout 3000] else []);
       entropy := entropy w; drawn := drawn w |}.
Proof.
  destruct w as [h [l t q e m] st ef en dr].
  destruct ok; run_async; rewrite lookup_insert_eq; cbn [default];
    by rewrite <- ?(assoc_L (++)).
Qed.

Lemma collection_toggleDoneWith ok id0 w :
  collection (toggleDoneWith ok id0 w) = flipDone id0 <$> collection w.
Proof.
  rewrite toggleDoneWith_world. unfold collection at 1, deref.
  cbn [heap ui todos]. by rewrite lookup_insert_eq.
Qed.

Lemma collection_removeWith ok id0 w :
  collection (removeWith ok id0 w)
  = filter (λ todo, id todo ≠ id0) (collection w).
Proof.
  rewrite removeWith_world. unfold collection at 1, deref.
  cbn [heap ui todos]. by rewrite lookup_insert_eq.
Qed.

Lemma collection_toggleDone id0 w :
  collection (toggleDone id0 w) = flipDone id0 <$> collection w.
Proof. apply (collection_toggleDoneWith true). Qed.

Lemma collection_remove id0 w :
  collection (remove id0 w) = filter (λ todo, id todo ≠ id0) (collection w).
Proof. apply (collection_removeWith true). Qed.

Lemma collection_beginEdit id0 title0 w :
  collection (beginEdit id0 title0 w) = collection w.
Proof. done. Qed.

Lemma flipDone_involutive id0 todo : flipDone id0 (flipDone id0 todo) = todo.
Proof.
  unfold flipDone. destruct (decide (id todo = id0)) as [E|E]; simpl.
  - rewrite decide_True by done. simpl. rewrite negb_involutive.
    by destruct todo.
  - by rewrite decide_False.
Qed.

Lemma truthy_id_Some target :
  target ≠ Q2Qc 0 → truthy_id (Some target) = true.
Proof. intros H. simpl. by rewrite bool_decide_eq_true. Qed.

Lemma retitle_matching text target s todo :
  editingTodoId s = Some target → todoText s = text →
  retitle s todo = if decide (id todo = target) then withTitle text todo
                   else todo.
Proof.
  intros He Ht. unfold retitle, withTitle. rewrite He, Ht.
  destruct (decide (id todo = target)) as [->|Hne].
  - by rewrite decide_True.
  - rewrite decide_False; [done|]. by intros [= ?].
Qed.

(** ** Submitting *)

(** C5: a text that is empty or all white space makes [submit] change
    nothing: the heap and with it the task collection, the edit target and
    the store stay as they were, and no call leaves the component, so
    nothing is written to [AsyncStorage]. *)
Theorem submit_blank_noop text w :
  allWhiteSpace text →
  heap (submit text w) = heap w
  ∧ collection (submit text w) = collection w
  ∧ editingTodoId (ui (submit text w)) = editingTodoId (ui w)
  ∧ storage (submit text w) = storage w
  ∧ effects (submit text w) = effects w.
Proof.
  intros H. apply trim_nil in H. by rewrite submit_blank.
Qed.

Lemma submit_blank_noop_witness :
  let w := screen [buyMilk] [] (Some (id buyMilk)) in
  let text := js "   " in
  allWhiteSpace text
  ∧ collection (submit text w) = collection w
  ∧ editingTodoId (ui (submit text w)) = Some (id buyMilk)
  ∧ effects (submit text w) = [].
Proof.
  assert (Hws : allWhiteSpace (js "   ")) by (repeat constructor).
  pose proof (submit_blank_noop (js "   ")
                (screen [buyMilk] [] (Some (id buyMilk))) Hws)
    as (_ & Hc & He & _ & Hf).
  repeat split; assumption.
Defined.

(** C4: with no edit target, submitting a text whose trimmed form is not
    empty appends one task at the end of the collection, so the length
    grows by one; the new task is not done, carries the text as typed,
    untrimmed, and takes its identifier from [Math.random()]. *)
Theorem submit_appends text w :
  trim text ≠ [] →
  editingTodoId (ui w) = None →
  let newTodo :=
    {| id := entropy w (drawn w); title := text; isDone := false |} in
  collection (submit text w) = collection w ++ [newTodo]
  ∧ length (collection (submit text w)) = S (length (collection w))
  ∧ storage (submit text w) !! js "my-todo" = Some (collection w ++ [newTodo]).
Proof.
  intros Ht He newTodo.
  assert (Hf : truthy_id (editingTodoId (ui w)) = false) by by rewrite He.
  split_and!.
  - by apply collection_submit_add.
  - rewrite collection_submit_add by done.
    rewrite length_app. simpl. lia.
  - rewrite submit_add by done. simpl. by rewrite lookup_insert_eq.
Qed.

Lemma submit_appends_witness :
  let w := screen [buyMilk] [] None in
  let text := js "  Clean House " in
  collection (submit text w)
  = [buyMilk; {| id := Q2Qc (1 # 8); title := text; isDone := false |}].
Proof.
  refine (proj1 (submit_appends (js "  Clean House ")
                   (screen [buyMilk] [] None) _ _)).
  - intros H. vm_compute in H. discriminate H.
  - reflexivity.
Defined.

(** C3, as the code has it: when the edit target is a non-zero identifier
    carried by a task of the collection, submitting a text whose trimmed
    form is not empty gives every task with that identifier the text as its
    title, keeps its identifier, its done flag and its position, and keeps
    every task with another identifier as it is; all this is done before
    the write to the store is awaited.  The edit target is cleared after
    that [await]: it is cleared when the store accepts the write, and stays
    set when the store rejects it. *)
Theorem submit_retitles_matching ok text target w :
  trim text ≠ [] →
  editingTodoId (ui w) = Some target →
  target ≠ Q2Qc 0 →
  Exists (λ todo, id todo = target) (collection w) →
  length (collection (submitWith ok text w)) = length (collection w)
  ∧ (∀ i todo, collection w !! i = Some todo →
       collection (submitWith ok text w) !! i
       = Some (if decide (id todo = target) then withTitle text todo
               else todo))
  ∧ editingTodoId (ui (submitWith ok text w))
    = if ok then None else Some target.
Proof.
  intros Ht He Hz _.
  assert (Hy : truthy_id (editingTodoId (ui w)) = true)
    by (rewrite He; by apply truthy_id_Some).
  split_and!.
  - rewrite collection_submitWith_update by done. by rewrite length_fmap.
  - intros i todo Hi. rewrite collection_submitWith_update by done.
    rewrite list_lookup_fmap, Hi. simpl. f_equal.
    by apply retitle_matching.
  - rewrite submitWith_update by done. cbn [ui editingTodoId].
    by rewrite He.
Qed.

Lemma submit_retitles_matching_witness :
  let w := screen [buyMilk; cleanHouse] [] (Some (id buyMilk)) in
  let accepted := submitWith true (js "Buy oat milk") w in
  let rejected := submitWith false (js "Buy oat milk") w in
  (collection accepted !! 0%nat = Some (withTitle (js "Buy oat milk") buyMilk)
   ∧ collection accepted !! 1%nat = Some cleanHouse
   ∧ editingTodoId (ui accepted) = None)
  ∧ (collection rejected !! 0%nat
     = Some (withTitle (js "Buy oat milk") buyMilk)
     ∧ collection rejected !! 1%nat = Some cleanHouse
     ∧ editingTodoId (ui rejected) = Some (id buyMilk)).
Proof.
  assert (Ht : trim (js "Buy oat milk") ≠ [])
    by (intros H; vm_compute in H; discriminate H).
  assert (Hz : id buyMilk ≠ Q2Qc 0)
    by (intros H; vm_compute in H; discriminate H).
  assert (Hx : Exists (λ todo, id todo = id buyMilk)
                 (collection (screen [buyMilk; cleanHouse] []
                                (Some (id buyMilk)))))
    by (apply (bool_decide_unpack _); vm_compute; exact I).
  pose proof (submit_retitles_matching true (js "Buy oat milk") (id buyMilk)
                (screen [buyMilk; cleanHouse] [] (Some (id buyMilk)))
                Ht eq_refl Hz Hx) as (_ & Hall & Hnone).
  pose proof (submit_retitles_matching false (js "Buy oat milk") (id buyMilk)
                (screen [buyMilk; cleanHouse] [] (Some (id buyMilk)))
                Ht eq_refl Hz Hx) as (_ & Hall' & Hkept).
  split; split_and!.
  - exact (Hall 0%nat buyMilk eq_refl).
  - exact (Hall 1%nat cleanHouse eq_refl).
  - exact Hnone.
  - exact (Hall' 0%nat buyMilk eq_refl).
  - exact (Hall' 1%nat cleanHouse eq_refl).
  - exact Hkept.
Defined.

(** C3 as it is worded fails twice.  When two tasks carry the edit
    target's identifier, both titles are replaced, not the one; and when
    the task being edited has the identifier [0], its title is not replaced
    and the edit target is not cleared. *)
Lemma editReplacesOne_fails :
  ¬ editReplacesOne (screen [buyMilk; buyBread] [] (Some (id buyMilk)))
      (js "Buy oat milk") 0 buyMilk
  ∧ ¬ editReplacesOne (screen [walkDog] [] (Some (id walkDog)))
        (js "Walk cat") 0 walkDog.
Proof.
  split.
  - intros H. destruct H as [H _]; [| reflexivity | reflexivity |].
    + intros E. vm_compute in E. discriminate E.
    + apply (f_equal (λ l, title <$> l !! 1%nat)) in H.
      vm_compute in H. discriminate H.
  - intros H. destruct H as [_ H]; [| reflexivity | reflexivity |].
    + intros E. vm_compute in E. discriminate E.
    + vm_compute in H. discriminate H.
Qed.

(** C2, as the code has it: when the edit target is a non-zero identifier
    that no task of the collection carries, submitting a text whose trimmed
    form is not empty leaves the collection as it was, element for element,
    and yet takes the update path: it asks the store to write the unchanged
    collection once more.  What comes after the [await] depends on the
    store.  When the write is accepted the snapshot is rewritten, the edit
    target is cleared and the message "Todo edited successfully!" is set;
    when it is rejected the handler ends at the [await], and the snapshot,
    the edit target and the message stay as they were. *)
Theorem submit_stale_target ok text target w :
  trim text ≠ [] →
  editingTodoId (ui w) = Some target →
  target ≠ Q2Qc 0 →
  Forall (λ todo, id todo ≠ target) (collection w) →
  collection (submitWith ok text w) = collection w
  ∧ effects (submitWith ok text w)
    = effects w ++ SetItem (js "my-todo") (collection w)
      :: (if ok then [KeyboardDismiss; SetTimeout 3000] else [])
  ∧ storage (submitWith ok text w)
    = (if ok then <[js "my-todo" := collection w]> (storage w)
       else storage w)
  ∧ editingTodoId (ui (submitWith ok text w))
    = (if ok then None else Some target)
  ∧ successMessage (ui (submitWith ok text w))
    = (if ok then js "Todo edited successfully!" else successMessage (ui w)).
Proof.
  intros Ht He Hz Hstale.
  assert (Hy : truthy_id (editingTodoId (ui w)) = true)
    by (rewrite He; by apply truthy_id_Some).
  assert (Hsame : retitle (ui (exec (setTodoText text) w)) <$> collection w
                  = collection w).
  { rewrite <- (list_fmap_id (collection w)) at 2.
    apply list_fmap_ext. intros i todo Hi.
    rewrite (retitle_matching text target) by done.
    rewrite decide_False; [done|].
    rewrite Forall_forall in Hstale. apply Hstale.
    by eapply list_elem_of_lookup_2. }
  split_and!.
  - by rewrite collection_submitWith_update.
  - rewrite submitWith_update by done. cbn [effects]. by rewrite Hsame.
  - rewrite submitWith_update by done. cbn [storage]. by rewrite Hsame.
  - rewrite submitWith_update by done. cbn [ui editingTodoId].
    by rewrite He.
  - by rewrite submitWith_update.
Qed.

Lemma submit_stale_target_witness :
  let w := screen [cleanHouse] [] (Some (id buyMilk)) in
  let accepted := submitWith true (js "Buy oat milk") w in
  let rejected := submitWith false (js "Buy oat milk") w in
  (collection accepted = [cleanHouse]
   ∧ editingTodoId (ui accepted) = None
   ∧ successMessage (ui accepted) = js "Todo edited successfully!")
  ∧ (collection rejected = [cleanHouse]
     ∧ editingTodoId (ui rejected) = Some (id buyMilk)
     ∧ successMessage (ui rejected) = []
     ∧ effects rejected = [SetItem (js "my-todo") [cleanHouse]]).
Proof.
  assert (Ht : trim (js "Buy oat milk") ≠ [])
    by (intros H; vm_compute in H; discriminate H).
  assert (Hz : id buyMilk ≠ Q2Qc 0)
    by (intros H; vm_compute in H; discriminate H).
  assert (Hs : Forall (λ todo, id todo ≠ id buyMilk)
                 (collection (screen [cleanHouse] [] (Some (id buyMilk)))))
    by (apply (bool_decide_unpack _); vm_compute; exact I).
  pose proof (submit_stale_target true (js "Buy oat milk") (id buyMilk)
                (screen [cleanHouse] [] (Some (id buyMilk)))
                Ht eq_refl Hz Hs) as (Hc & _ & _ & He & Hm).
  pose proof (submit_stale_target false (js "Buy oat milk") (id buyMilk)
                (screen [cleanHouse] [] (Some (id buyMilk)))
                Ht eq_refl Hz Hs) as (Hc' & Hf' & _ & He' & Hm').
  split; split_and!; assumption.
Defined.

(** C2 as it is worded fails twice.  Under a stale non-zero edit target
    [submit] clears the edit target and sets a message; under the stale
    edit target [0] it appends a task. *)
Lemma staleSubmitIsNoop_fails :
  ¬ staleSubmitIsNoop (screen [cleanHouse] [] (Some (id buyMilk)))
      (js "Buy oat milk") (id buyMilk)
  ∧ ¬ staleSubmitIsNoop (screen [cleanHouse] [] (Some (Q2Qc 0)))
        (js "Buy oat milk") (Q2Qc 0).
Proof.
  split.
  - intros H. destruct H as (_ & H & _); [| reflexivity | |].
    + intros E. vm_compute in E. discriminate E.
    + intros todo Hin. apply list_elem_of_singleton in Hin as ->.
      intros E. vm_compute in E. discriminate E.
    + vm_compute in H. discriminate H.
  - intros H. destruct H as (H & _); [| reflexivity | |].
    + intros E. vm_compute in E. discriminate E.
    + intros todo Hin. apply list_elem_of_singleton in Hin as ->.
      intros E. vm_compute in E. discriminate E.
    + apply (f_equal length) in H. vm_compute in H. discriminate H.
Qed.

(** C10: after [beginEdit(0, title)], submitting a text whose trimmed form
    is not empty takes the add path, because the edit target [0] is falsy:
    a new task is appended, every task of the collection, the one with
    identifier [0] included, keeps its place and its title, and the edit
    target stays [0]. *)
Theorem zero_target_appends title0 text w :
  trim text ≠ [] →
  let w' := submit text (beginEdit (Q2Qc 0) title0 w) in
  collection w'
  = collection w
    ++ [{| id := entropy w (drawn w); title := text; isDone := false |}]
  ∧ (∀ i todo, collection w !! i = Some todo → collection w' !! i = Some todo)
  ∧ editingTodoId (ui w') = Some (Q2Qc 0).
Proof.
  intros Ht w'.
  assert (Hf : truthy_id (editingTodoId (ui (beginEdit (Q2Qc 0) title0 w)))
               = false) by done.
  assert (Hc : collection w' = collection w
    ++ [{| id := entropy w (drawn w); title := text; isDone := false |}]).
  { unfold w'. by rewrite collection_submit_add. }
  split_and!.
  - done.
  - intros i todo Hi. rewrite Hc. by apply lookup_app_l_Some.
  - unfold w'. by rewrite submit_add.
Qed.

Lemma zero_target_appends_witness :
  let w' := submit (js "Walk cat")
              (beginEdit (Q2Qc 0) (title walkDog) (screen [walkDog] [] None)) in
  collection w'
  = [walkDog; {| id := Q2Qc (1 # 8); title := js "Walk cat"; isDone := false |}]
  ∧ editingTodoId (ui w') = Some (Q2Qc 0).
Proof.
  assert (Ht : trim (js "Walk cat") ≠ [])
    by (intros H; vm_compute in H; discriminate H).
  pose proof (zero_target_appends (title walkDog) (js "Walk cat")
                (screen [walkDog] [] None) Ht) as (Hc & _ & He).
  split; assumption.
Defined.

(** ** Toggling and removing *)

Lemma filter_all {A} (P : A → Prop) `{∀ x, Decision (P x)} (l : list A) :
  Forall P l → filter P l = l.
Proof.
  induction 1 as [|x l Hx _ IH]; [done|].
  by rewrite filter_cons_True, IH.
Qed.

(** C7: toggling the same identifier twice gives back the collection as it
    was: every done flag has its first value and no other field differs. *)
Theorem toggleDone_involutive id0 w :
  collection (toggleDone id0 (toggleDone id0 w)) = collection w.
Proof.
  rewrite !collection_toggleDone, <- list_fmap_compose.
  rewrite <- (list_fmap_id (collection w)) at 2.
  apply list_fmap_ext. intros i todo _. simpl. apply flipDone_involutive.
Qed.

(** C8: removing the same identifier a second time leaves the collection
    as the first removal left it, and removing an identifier that no task
    carries leaves the collection as it is. *)
Theorem remove_idempotent id0 w :
  collection (remove id0 (remove id0 w)) = collection (remove id0 w)
  ∧ (Forall (λ todo, id todo ≠ id0) (collection w) →
     collection (remove id0 w) = collection w).
Proof.
  rewrite !collection_remove. split.
  - by rewrite list_filter_filter_l.
  - apply filter_all.
Qed.

Lemma remove_idempotent_witness :
  let w := screen [buyMilk; cleanHouse] [] None in
  collection (remove (id buyMilk) (remove (id buyMilk) w)) = [cleanHouse]
  ∧ collection (remove (id walkDog) w) = [buyMilk; cleanHouse].
Proof.
  pose proof (remove_idempotent (id buyMilk)
                (screen [buyMilk; cleanHouse] [] None)) as [Htwice _].
  pose proof (remove_idempotent (id walkDog)
                (screen [buyMilk; cleanHouse] [] None)) as [_ Hnone].
  split.
  - etrans; [exact Htwice | by vm_compute].
  - apply Hnone. apply (bool_decide_unpack _). vm_compute. exact I.
Defined.

(** C9: the operations addressed by identifier reach every task that
    carries it.  After [remove] no task with the identifier is left and the
    others stand in their order; after [toggleDone] the done flag of each
    task with the identifier is flipped, at whatever positions they stand. *)
Theorem identifier_reaches_every_match id0 w :
  Forall (λ todo, id todo ≠ id0) (collection (remove id0 w))
  ∧ collection (remove id0 w) = filter (λ todo, id todo ≠ id0) (collection w)
  ∧ (∀ i todo, collection w !! i = Some todo → id todo = id0 →
       collection (toggleDone id0 w) !! i
       = Some {| id := id todo; title := title todo;
                 isDone := negb (isDone todo) |})
  ∧ (∀ i todo, collection w !! i = Some todo → id todo ≠ id0 →
       collection (toggleDone id0 w) !! i = Some todo).
Proof.
  split_and!.
  - rewrite collection_remove. apply Forall_forall. intros todo Hin.
    by apply list_elem_of_filter in Hin as [? _].
  - apply collection_remove.
  - intros i todo Hi Hid. rewrite collection_toggleDone.
    rewrite list_lookup_fmap, Hi. simpl. unfold flipDone.
    by rewrite decide_True.
  - intros i todo Hi Hid. rewrite collection_toggleDone.
    rewrite list_lookup_fmap, Hi. simpl. unfold flipDone.
    by rewrite decide_False.
Qed.

Lemma identifier_reaches_every_match_witness :
  let w := screen [buyMilk; cleanHouse; buyBread] [] None in
  id buyMilk = id buyBread
  ∧ collection (remove (id buyMilk) w) = [cleanHouse]
  ∧ isDone <$> collection (toggleDone (id buyMilk) w) !! 0%nat = Some true
  ∧ isDone <$> collection (toggleDone (id buyMilk) w) !! 2%nat = Some false.
Proof.
  pose proof (identifier_reaches_every_match (id buyMilk)
                (screen [buyMilk; cleanHouse; buyBread] [] None))
    as (_ & Hrm & Hflip & _).
  split_and!.
  - reflexivity.
  - etrans; [exact Hrm | by vm_compute].
  - by rewrite (Hflip 0%nat buyMilk eq_refl eq_refl).
  - by rewrite (Hflip 2%nat buyBread eq_refl eq_refl).
Defined.

(** The scenario of the spec, run from a first start: add, edit, toggle,
    remove. *)
Example add_edit_toggle_remove :
  let w1 := submit (js "Buy milk") firstStart in
  let w2 := submit (js "Buy oat milk")
              (beginEdit (Q2Qc (1 # 2)) (js "Buy milk") w1) in
  let w3 := toggleDone (Q2Qc (1 # 2)) w2 in
  let w4 := remove (Q2Qc (1 # 2)) w3 in
  collection firstStart = []
  ∧ collection w1
    = [{| id := Q2Qc (1 # 2); title := js "Buy milk"; isDone := false |}]
  ∧ collection w2
    = [{| id := Q2Qc (1 # 2); title := js "Buy oat milk"; isDone := false |}]
  ∧ editingTodoId (ui w2) = None
  ∧ collection w3
    = [{| id := Q2Qc (1 # 2); title := js "Buy oat milk"; isDone := true |}]
  ∧ collection w4 = []
  ∧ storage w4 !! js "my-todo" = Some [].
Proof. by vm_compute. Qed.

(** ** Search and display *)

Lemma selects_all {A} (P : A → Prop) (l : list A) :
  Forall P l → selects P l l.
Proof. induction 1; by constructor. Qed.

Lemma filter_selects {A} (P Q : A → Prop) `{∀ x, Decision (P x)} (l : list A) :
  (∀ x, P x ↔ Q x) → selects Q l (filter P l).
Proof.
  intros HPQ. induction l as [|x l IH]; [constructor|].
  destruct (decide (P x)) as [Hx|Hx].
  - rewrite filter_cons_True by done. constructor; [by apply HPQ | done].
  - rewrite filter_cons_False by done. constructor; [by rewrite <- HPQ | done].
Qed.

(** [selects] leaves no choice: it describes one list. *)
Lemma selects_functional {A} (P : A → Prop) (l k k' : list A) :
  selects P l k → selects P l k' → k = k'.
Proof.
  intros Hk. revert k'. induction Hk as [|x l k Hx _ IH|x l k Hx _ IH];
    intros k' Hk'; inversion Hk'; subst; try done.
  - f_equal. by apply IH.
  - by apply IH.
Qed.

Lemma selects_sublist {A} (P : A → Prop) (l k : list A) :
  selects P l k → k `sublist_of` l.
Proof. induction 1; by constructor. Qed.

Section DisplayFacts.

Variable toLowerCase : jsstring → jsstring.

Lemma matchesQuery_infix q todo :
  matchesQuery toLowerCase q todo ↔ containsIgnoringCase toLowerCase q todo.
Proof. apply includes_infix. Qed.

Lemma filteredTodos_query_empty s w :
  searchQuery s = [] → filteredTodos toLowerCase s w = (todos s, w).
Proof. intros H. unfold filteredTodos. by rewrite H. Qed.

Lemma filteredTodos_query_nonempty s w :
  searchQuery s ≠ [] →
  filteredTodos toLowerCase s w
  = (fresh (dom (heap w)),
     with_heap <[fresh (dom (heap w))
                 := filter (matchesQuery toLowerCase (searchQuery s))
                      (deref w (todos s))]> w).
Proof.
  intros H. unfold filteredTodos.
  destruct (searchQuery s) as [|c q]; [done|]. reflexivity.
Qed.

(** With an empty query the list handed to [FlatList] is the stored array
    itself, reversed where it lies. *)
Lemma render_query_empty w :
  searchQuery (ui w) = [] →
  (render toLowerCase w).1 = reverse (collection w)
  ∧ collection (render toLowerCase w).2 = reverse (collection w).
Proof.
  intros H. unfold render, FlatList_data, mbind, M_bind.
  rewrite filteredTodos_query_empty by done.
  unfold Array_reverse, collection, deref, with_heap. cbn [heap ui fst snd].
  rewrite lookup_alter_eq. by destruct (heap w !! todos (ui w)).
Qed.

(** With a query the reversed array is the fresh one [filter] made, and the
    stored collection stays as it is. *)
Lemma render_query_nonempty w :
  searchQuery (ui w) ≠ [] →
  is_Some (heap w !! todos (ui w)) →
  (render toLowerCase w).1
  = reverse (filter (matchesQuery toLowerCase (searchQuery (ui w)))
               (collection w))
  ∧ collection (render toLowerCase w).2 = collection w.
Proof.
  intros H [xs Hxs]. unfold render, FlatList_data, mbind, M_bind.
  rewrite filteredTodos_query_nonempty by done.
  unfold Array_reverse, collection, deref, with_heap. cbn [heap ui fst snd].
  rewrite lookup_alter_eq, lookup_insert_eq. split; [done|].
  rewrite lookup_alter_ne, lookup_insert_ne; [done| |];
    intros E; rewrite <- E, fresh_heap in Hxs; done.
Qed.

Hypothesis toLowerCase_empty : toLowerCase [] = [].

(** C6: the view [search] computes consists of exactly the tasks whose
    title contains the query once both are in lower case, in the order of
    the collection; for the empty query it is the collection itself; and
    computing it changes no array that existed before, hence not the stored
    collection, nor the store. *)
Theorem search_selects_matching q w :
  let view := (search toLowerCase q w).1 in
  let w' := (search toLowerCase q w).2 in
  selects (containsIgnoringCase toLowerCase q) (collection w) view
  ∧ (q = [] → view = collection w)
  ∧ (∀ l, is_Some (heap w !! l) → heap w' !! l = heap w !! l)
  ∧ collection w' = collection w
  ∧ storage w' = storage w
  ∧ effects w' = effects w.
Proof.
  unfold search. destruct (decide (q = [])) as [->|Hq].
  - rewrite filteredTodos_query_empty by done. cbn [fst snd].
    split_and!; try done.
    apply selects_all, Forall_forall. intros todo _.
    exists [], (toLowerCase (title todo)). by rewrite toLowerCase_empty.
  - rewrite filteredTodos_query_nonempty by done. run_handler.
    assert (Hfresh : heap w !! fresh (dom (heap w)) = None)
      by apply fresh_heap.
    split_and!; try done.
    + rewrite lookup_insert_eq. cbn [default].
      apply filter_selects. intros todo. apply matchesQuery_infix.
    + intros l [ys Hl].
      rewrite lookup_insert_ne; [done|]. intros E. congruence.
    + destruct (decide (fresh (dom (heap w)) = todos (ui w))) as [E|E].
      * rewrite E, lookup_insert_eq. rewrite E in Hfresh.
        by rewrite Hfresh.
      * by rewrite lookup_insert_ne.
Qed.

End DisplayFacts.

Lemma search_selects_matching_witness :
  let w := screen [buyMilk; cleanHouse] [] None in
  selects (containsIgnoringCase ascii_toLowerCase (js "MILK"))
    [buyMilk; cleanHouse] [buyMilk]
  ∧ (search ascii_toLowerCase [] w).1 = [buyMilk; cleanHouse].
Proof.
  pose proof (search_selects_matching ascii_toLowerCase eq_refl (js "MILK")
                (screen [buyMilk; cleanHouse] [] None)) as (Hsel & _).
  pose proof (search_selects_matching ascii_toLowerCase eq_refl []
                (screen [buyMilk; cleanHouse] [] None)) as (_ & Hall & _).
  split.
  - exact Hsel.
  - exact (Hall eq_refl).
Defined.

(** C1, at a collection of two tasks and an empty query: the list handed to
    [FlatList] is the newest task first, but it is the stored array itself
    that has been reversed, so the collection the state refers to is no
    longer in insertion order, and the next render shows the oldest task
    first. *)
Theorem display_reverses_stored_collection toLowerCase :
  let w := screen [buyMilk; cleanHouse] [] None in
  let w' := (render toLowerCase w).2 in
  collection w = [buyMilk; cleanHouse]
  ∧ (render toLowerCase w).1 = [cleanHouse; buyMilk]
  ∧ collection w' = [cleanHouse; buyMilk]
  ∧ collection w' ≠ collection w
  ∧ (render toLowerCase w').1 = [buyMilk; cleanHouse].
Proof.
  intros w w'.
  assert (Hq : searchQuery (ui w) = []) by done.
  destruct (render_query_empty toLowerCase w Hq) as [Hshown Hstored].
  assert (Hq' : searchQuery (ui w') = []) by done.
  destruct (render_query_empty toLowerCase w' Hq') as [Hshown' _].
  assert (Hc : collection w = [buyMilk; cleanHouse]) by by vm_compute.
  rewrite Hc in *. fold w' in Hstored.
  rewrite Hstored in Hshown'.
  split_and!; [done | exact Hshown | exact Hstored | | exact Hshown'].
  rewrite Hstored. intros E. vm_compute in E. discriminate E.
Qed.

(** * Beyond the single operations *)

(** ** Loading and storing *)

Lemma setTodoText_same w : exec (setTodoText (todoText (ui w))) w = w.
Proof. by destruct w as [? [] ? ? ? ?]. Qed.

(** Pressing the button submits the text the field holds. *)
Lemma fireWith_addOrUpdateTodo_submit ok w :
  fireWith ok addOrUpdateTodo w = submitWith ok (todoText (ui w)) w.
Proof. unfold submitWith. by rewrite setTodoText_same. Qed.

Lemma fire_addOrUpdateTodo_submit w :
  fire addOrUpdateTodo w = submit (todoText (ui w)) w.
Proof. apply (fireWith_addOrUpdateTodo_submit true). Qed.

Lemma storage_toggleDoneWith ok id0 w :
  storage (toggleDoneWith ok id0 w)
  = if ok then <[js "my-todo" := collection (toggleDoneWith ok id0 w)]>
                 (storage w)
    else storage w.
Proof.
  rewrite collection_toggleDoneWith, toggleDoneWith_world. by destruct ok.
Qed.

Lemma storage_removeWith ok id0 w :
  storage (removeWith ok id0 w)
  = if ok then <[js "my-todo" := collection (removeWith ok id0 w)]>
                 (storage w)
    else storage w.
Proof.
  rewrite collection_removeWith, removeWith_world. by destruct ok.
Qed.

Lemma storage_submitWith ok text w :
  trim text ≠ [] →
  storage (submitWith ok text w)
  = if ok then <[js "my-todo" := collection (submitWith ok text w)]>
                 (storage w)
    else storage w.
Proof.
  intros Ht. destruct (truthy_id (editingTodoId (ui w))) eqn:He.
  - rewrite collection_submitWith_update, submitWith_update by done.
    by destruct ok.
  - rewrite collection_submitWith_add, submitWith_add by done.
    by destruct ok.
Qed.

Lemma stored_toggleDone id0 w :
  stored (toggleDone id0 w) = collection (toggleDone id0 w).
Proof.
  unfold stored. change (toggleDone id0 w) with (toggleDoneWith true id0 w).
  by rewrite storage_toggleDoneWith, lookup_insert_eq.
Qed.

Lemma stored_remove id0 w :
  stored (remove id0 w) = collection (remove id0 w).
Proof.
  unfold stored. change (remove id0 w) with (removeWith true id0 w).
  by rewrite storage_removeWith, lookup_insert_eq.
Qed.

Lemma stored_submit text w :
  trim text ≠ [] → stored (submit text w) = collection (submit text w).
Proof.
  intros Ht. unfold stored.
  change (submit text w) with (submitWith true text w).
  by rewrite storage_submitWith, lookup_insert_eq.
Qed.

(** [loadTodos], whatever becomes of the read. *)
Lemma loadTodos_world ok w :
  outcome ok loadTodos w
  = match (if ok then Some (storage w !! js "my-todo") else None) with
    | Some (Some xs) =>
        {| heap := <[fresh (dom (heap w)) := xs]> (heap w);
           ui := {| todos := fresh (dom (heap w));
                    todoText := todoText (ui w);
                    searchQuery := searchQuery (ui w);
                    editingTodoId := editingTodoId (ui w);
                    successMessage := successMessage (ui w) |};
           storage := storage w;
           effects := effects w ++ [GetItem (js "my-todo")];
           entropy := entropy w; drawn := drawn w |}
    | Some None => emit (GetItem (js "my-todo")) w
    | None =>
        emit ConsoleError (emit (GetItem (js "my-todo")) w)
    end.
Proof.
  destruct w as [h [l t q e m] st ef en dr].
  destruct ok; run_async; [|done].
  by destruct (st !! js "my-todo").
Qed.

Lemma collection_mount kv rnd :
  collection (mount kv rnd) = default [] (kv !! js "my-todo").
Proof.
  unfold mount. rewrite loadTodos_world. cbn [storage unmounted].
  destruct (kv !! js "my-todo") as [xs|] eqn:E.
  - unfold collection, deref. cbn [heap ui todos].
    by rewrite lookup_insert_eq.
  - by vm_compute.
Qed.

(** X1: [loadTodos] makes one outside call, the read of "my-todo", and
    writes nothing to the store.  When the read is rejected the error is
    caught and logged and heap and state stay as they were; when nothing is
    stored they stay as they were; when a serialized collection is stored it
    becomes the current collection, in a new array, and no array that
    existed is changed.  The edit target and the text field are never
    touched. *)
Theorem loadTodos_outcome ok w :
  let w' := outcome ok loadTodos w in
  effects w'
  = effects w ++ GetItem (js "my-todo") :: (if ok then [] else [ConsoleError])
  ∧ storage w' = storage w
  ∧ (∀ l, is_Some (heap w !! l) → heap w' !! l = heap w !! l)
  ∧ editingTodoId (ui w') = editingTodoId (ui w)
  ∧ todoText (ui w') = todoText (ui w)
  ∧ collection w'
    = (if ok then default (collection w) (storage w !! js "my-todo")
       else collection w)
  ∧ (ok = false ∨ storage w !! js "my-todo" = None →
     heap w' = heap w ∧ ui w' = ui w).
Proof.
  intros w'. unfold w'. rewrite loadTodos_world.
  destruct ok; [destruct (storage w !! js "my-todo") as [xs|] eqn:E|].
  - split_and!; try done.
    + intros l [ys Hl]. cbn [heap]. rewrite lookup_insert_ne; [done|].
      intros El. rewrite <- El, fresh_heap in Hl. done.
    + unfold collection at 1, deref. cbn [heap ui todos default].
      by rewrite lookup_insert_eq.
    + by intros [?|?].
  - split_and!; done.
  - split_and!; try done. unfold emit. cbn [effects].
    by rewrite <- (assoc_L (++)).
Qed.

Lemma loadTodos_outcome_witness :
  let w := unmounted {[ js "my-todo" := [buyMilk; cleanHouse] ]} halving in
  collection w = []
  ∧ collection (outcome true loadTodos w) = [buyMilk; cleanHouse]
  ∧ effects (outcome false loadTodos w)
    = [GetItem (js "my-todo"); ConsoleError]
  ∧ ui (outcome false loadTodos w) = ui w.
Proof.
  pose proof (loadTodos_outcome true
                (unmounted {[ js "my-todo" := [buyMilk; cleanHouse] ]} halving))
    as (_ & _ & _ & _ & _ & Hc & _).
  pose proof (loadTodos_outcome false
                (unmounted {[ js "my-todo" := [buyMilk; cleanHouse] ]} halving))
    as (He & _ & _ & _ & _ & _ & Hsame).
  split_and!.
  - reflexivity.
  - etrans; [exact Hc | by vm_compute].
  - exact He.
  - exact (proj2 (Hsame (or_introl eq_refl))).
Defined.

(** X2: each handler that changes the collection asks the store to write
    the whole collection it has just built.  After a submit of a text that
    is not blank, after [handleDone] and after [deleteTodo]: when the store
    accepts the write, the entry "my-todo" holds the collection the
    operation left and no other entry has changed; when the store rejects
    it, the store is as it was before. *)
Theorem accepted_write_stores_collection ok text id0 w :
  (trim text ≠ [] →
   storage (submitWith ok text w)
   = if ok then <[js "my-todo" := collection (submitWith ok text w)]>
                  (storage w)
     else storage w)
  ∧ storage (toggleDoneWith ok id0 w)
    = (if ok then <[js "my-todo" := collection (toggleDoneWith ok id0 w)]>
                    (storage w)
       else storage w)
  ∧ storage (removeWith ok id0 w)
    = (if ok then <[js "my-todo" := collection (removeWith ok id0 w)]>
                    (storage w)
       else storage w).
Proof.
  split_and!.
  - apply storage_submitWith.
  - apply storage_toggleDoneWith.
  - apply storage_removeWith.
Qed.

Lemma accepted_write_stores_collection_witness :
  let w := screen [buyMilk; cleanHouse] [] None in
  stored (submitWith true (js "Walk dog") w)
  = [buyMilk; cleanHouse;
     {| id := Q2Qc (1 # 8); title := js "Walk dog"; isDone := false |}]
  ∧ storage (submitWith false (js "Walk dog") w) = storage w.
Proof.
  assert (Ht : trim (js "Walk dog") ≠ [])
    by (intros H; vm_compute in H; discriminate H).
  pose proof (proj1 (accepted_write_stores_collection true (js "Walk dog")
                       (id buyMilk) (screen [buyMilk; cleanHouse] [] None)) Ht)
    as Hyes.
  pose proof (proj1 (accepted_write_stores_collection false (js "Walk dog")
                       (id buyMilk) (screen [buyMilk; cleanHouse] [] None)) Ht)
    as Hno.
  split; [|exact Hno].
  unfold stored. rewrite Hyes, lookup_insert_eq. by vm_compute.
Defined.

(** ** What the operations keep *)

Lemma filter_fmap_comm {A} (P : A → Prop) `{∀ x, Decision (P x)}
    (f : A → A) (l : list A) :
  (∀ x, P (f x) ↔ P x) → filter P (f <$> l) = f <$> filter P l.
Proof.
  intros Hf. induction l as [|x l IH]; [done|]. rewrite fmap_cons.
  destruct (decide (P x)) as [Hx|Hx].
  - rewrite (filter_cons_True P (f x)) by (by apply Hf).
    rewrite (filter_cons_True P x) by done. by rewrite fmap_cons, IH.
  - rewrite (filter_cons_False P (f x)) by (by rewrite Hf).
    by rewrite (filter_cons_False P x).
Qed.

Lemma fmap_fmap_same {A B} (f : A → A) (g : A → B) (l : list A) :
  (∀ x, g (f x) = g x) → g <$> (f <$> l) = g <$> l.
Proof.
  intros H. rewrite <- list_fmap_compose. apply list_fmap_ext.
  intros ? x _. apply H.
Qed.

Lemma Forall_sublist_of {A} (P : A → Prop) (l k : list A) :
  k `sublist_of` l → Forall P l → Forall P k.
Proof.
  induction 1 as [|x k l _ IH|x k l _ IH]; [done| |];
    rewrite ?Forall_cons; intros [Hx Hl]; auto.
Qed.

Lemma NoDup_fmap_inj_on {A B} (f : A → B) (l : list A) x y :
  NoDup (f <$> l) → x ∈ l → y ∈ l → f x = f y → x = y.
Proof.
  induction l as [|a l IH]; [by inversion 2|].
  rewrite fmap_cons, NoDup_cons, !elem_of_cons. intros [Ha Hl] Hx Hy E.
  destruct Hx as [->|Hx], Hy as [->|Hy]; try done.
  - exfalso. apply Ha. rewrite E. by apply list_elem_of_fmap_2.
  - exfalso. apply Ha. rewrite <- E. by apply list_elem_of_fmap_2.
  - by apply IH.
Qed.

Lemma id_flipDone id0 todo : id (flipDone id0 todo) = id todo.
Proof. unfold flipDone. by destruct (decide _). Qed.

Lemma title_flipDone id0 todo : title (flipDone id0 todo) = title todo.
Proof. unfold flipDone. by destruct (decide _). Qed.

Lemma id_retitle s todo : id (retitle s todo) = id todo.
Proof. unfold retitle. by destruct (decide _). Qed.

Lemma isDone_retitle s todo : isDone (retitle s todo) = isDone todo.
Proof. unfold retitle. by destruct (decide _). Qed.

(** X14: an update through the edit path changes titles only.  Whatever the
    collection, duplicates included, the identifiers and the done flags
    stand afterwards as before, position by position, and [Math.random()]
    is not called. *)
Theorem update_keeps_ids_and_flags text w :
  trim text ≠ [] →
  truthy_id (editingTodoId (ui w)) = true →
  id <$> collection (submit text w) = id <$> collection w
  ∧ isDone <$> collection (submit text w) = isDone <$> collection w
  ∧ drawn (submit text w) = drawn w.
Proof.
  intros Ht He. rewrite collection_submit_update by done. split_and!.
  - apply fmap_fmap_same, id_retitle.
  - apply fmap_fmap_same, isDone_retitle.
  - by rewrite submit_update.
Qed.

Lemma update_keeps_ids_and_flags_witness :
  let w := screen [buyMilk; buyBread; cleanHouse] [] (Some (id buyMilk)) in
  isDone <$> collection (submit (js "Buy oat milk") w)
  = isDone <$> collection w.
Proof.
  refine (proj1 (proj2 (update_keeps_ids_and_flags (js "Buy oat milk")
            (screen [buyMilk; buyBread; cleanHouse] [] (Some (id buyMilk)))
            _ _))).
  - intros H. vm_compute in H. discriminate H.
  - reflexivity.
Defined.

(** X15: [toggleDone] changes done flags only: the collection keeps its
    length, and the identifiers and the titles stand as before, position by
    position. *)
Theorem toggleDone_keeps_tasks id0 w :
  length (collection (toggleDone id0 w)) = length (collection w)
  ∧ id <$> collection (toggleDone id0 w) = id <$> collection w
  ∧ title <$> collection (toggleDone id0 w) = title <$> collection w.
Proof.
  rewrite collection_toggleDone. split_and!.
  - by rewrite length_fmap.
  - apply fmap_fmap_same, id_flipDone.
  - apply fmap_fmap_same, title_flipDone.
Qed.

(** X16: toggles and removals can be done in either order.  Two toggles,
    two removals, and a toggle with a removal, for any two identifiers, the
    same one included, leave the same collection whichever comes first. *)
Theorem operations_commute a b w :
  collection (toggleDone a (toggleDone b w))
  = collection (toggleDone b (toggleDone a w))
  ∧ collection (remove a (remove b w)) = collection (remove b (remove a w))
  ∧ collection (remove a (toggleDone b w))
    = collection (toggleDone b (remove a w)).
Proof.
  rewrite !collection_toggleDone, !collection_remove, !collection_toggleDone.
  split_and!.
  - rewrite <- !list_fmap_compose. apply list_fmap_ext. intros _ todo _. simpl.
    unfold flipDone.
    repeat (destruct (decide _); simpl in *); try done; congruence.
  - rewrite !list_filter_filter. apply list_filter_iff. intros todo. tauto.
  - apply filter_fmap_comm. intros todo. by rewrite id_flipDone.
Qed.

(** X17: [remove] only takes tasks away: what it leaves is the collection
    with some tasks struck out, never longer, and strictly shorter exactly
    when some task carries the identifier. *)
Theorem remove_shortens_iff id0 w :
  collection (remove id0 w) `sublist_of` collection w
  ∧ (length (collection (remove id0 w)) ≤ length (collection w))%nat
  ∧ ((length (collection (remove id0 w)) < length (collection w))%nat
     ↔ Exists (λ todo, id todo = id0) (collection w)).
Proof.
  rewrite collection_remove. split_and!.
  - apply sublist_filter.
  - apply length_filter.
  - induction (collection w) as [|x l IH]; simpl.
    + split; [lia | by inversion 1].
    + rewrite Exists_cons. destruct (decide (id x = id0)) as [E|E].
      * rewrite filter_cons_False by (by intros ?).
        pose proof (length_filter (λ todo, id todo ≠ id0) l).
        split; [by left | lia].
      * rewrite filter_cons_True by done. simpl. rewrite <- IH.
        split; [intros ?; right; lia | intros [?|?]; [done | lia]].
Qed.

(** X18: an identifier that no task carries still sets the handlers to
    work.  [deleteTodo] leaves the collection as it is and yet asks the
    store to write it; the message "Todo deleted successfully!" and the
    timer come once the store has accepted the write, and do not come when
    it rejects it.  [handleDone] leaves the collection as it is and yet
    asks the store to write it, with no message and no timer either way. *)
Theorem absent_identifier_still_writes ok id0 w :
  Forall (λ todo, id todo ≠ id0) (collection w) →
  (collection (removeWith ok id0 w) = collection w
   ∧ successMessage (ui (removeWith ok id0 w))
     = (if ok then js "Todo deleted successfully!" else successMessage (ui w))
   ∧ effects (removeWith ok id0 w)
     = effects w ++ SetItem (js "my-todo") (collection w)
       :: (if ok then [SetTimeout 3000] else []))
  ∧ (collection (toggleDoneWith ok id0 w) = collection w
     ∧ successMessage (ui (toggleDoneWith ok id0 w)) = successMessage (ui w)
     ∧ effects (toggleDoneWith ok id0 w)
       = effects w ++ [SetItem (js "my-todo") (collection w)]).
Proof.
  intros Habs.
  assert (Hrm : filter (λ todo, id todo ≠ id0) (collection w) = collection w)
    by by apply filter_all.
  assert (Htg : flipDone id0 <$> collection w = collection w).
  { rewrite <- (list_fmap_id (collection w)) at 2.
    apply list_fmap_ext. intros i todo Hi. unfold flipDone.
    rewrite decide_False; [done|]. rewrite Forall_forall in Habs.
    by eapply Habs, list_elem_of_lookup_2. }
  split_and!.
  - by rewrite collection_removeWith.
  - by rewrite removeWith_world.
  - rewrite removeWith_world. cbn [effects]. by rewrite Hrm.
  - by rewrite collection_toggleDoneWith.
  - by rewrite toggleDoneWith_world.
  - rewrite toggleDoneWith_world. cbn [effects]. by rewrite Htg.
Qed.

Lemma absent_identifier_still_writes_witness :
  let w := screen [buyMilk; cleanHouse] [] None in
  (collection (removeWith true (id walkDog) w) = collection w
   ∧ successMessage (ui (removeWith true (id walkDog) w))
     = js "Todo deleted successfully!")
  ∧ (collection (removeWith false (id walkDog) w) = collection w
     ∧ successMessage (ui (removeWith false (id walkDog) w)) = []
     ∧ effects (removeWith false (id walkDog) w)
       = [SetItem (js "my-todo") [buyMilk; cleanHouse]]).
Proof.
  assert (Habs : Forall (λ todo, id todo ≠ id walkDog)
                   (collection (screen [buyMilk; cleanHouse] [] None)))
    by (apply (bool_decide_unpack _); vm_compute; exact I).
  pose proof (absent_identifier_still_writes true (id walkDog)
                (screen [buyMilk; cleanHouse] [] None) Habs)
    as [(Hc & Hm & _) _].
  pose proof (absent_identifier_still_writes false (id walkDog)
                (screen [buyMilk; cleanHouse] [] None) Habs)
    as [(Hc' & Hm' & Hf') _].
  split; split_and!; assumption.
Defined.

(** ** How the operations compose *)

(** X11: the label of the button tells which path a press takes.  With a
    text that is not blank in the field: when the button reads "Update",
    the press gives every task whose identifier is the edit target the
    field's text as title and leaves the others; when it reads "Add", the
    press appends one task with the field's text, not done.  The rest
    follows the write: once the store has accepted it, the message reads
    "Todo edited successfully!" and the edit target is cleared, or the
    message reads "Todo added successfully!" and the edit target is kept,
    and the field is emptied; when the store rejects it, message, edit
    target and field stay as they were. *)
Theorem buttonLabel_tells_path ok w :
  trim (todoText (ui w)) ≠ [] →
  let w' := fireWith ok addOrUpdateTodo w in
  (buttonLabel (ui w) = js "Update" →
     collection w' = retitle (ui w) <$> collection w
     ∧ successMessage (ui w')
       = (if ok then js "Todo edited successfully!"
          else successMessage (ui w))
     ∧ editingTodoId (ui w')
       = (if ok then None else editingTodoId (ui w)))
  ∧ (buttonLabel (ui w) = js "Add" →
     collection w'
     = collection w
       ++ [{| id := entropy w (drawn w); title := todoText (ui w);
              isDone := false |}]
     ∧ successMessage (ui w')
       = (if ok then js "Todo added successfully!"
          else successMessage (ui w))
     ∧ editingTodoId (ui w') = editingTodoId (ui w))
  ∧ todoText (ui w') = (if ok then [] else todoText (ui w)).
Proof.
  intros Ht w'. unfold w'. rewrite fireWith_addOrUpdateTodo_submit.
  unfold buttonLabel. destruct (truthy_id (editingTodoId (ui w))) eqn:He.
  - split_and!.
    + intros _. rewrite collection_submitWith_update by done.
      rewrite setTodoText_same. by rewrite submitWith_update.
    + intros E. vm_compute in E. discriminate E.
    + by rewrite submitWith_update.
  - split_and!.
    + intros E. vm_compute in E. discriminate E.
    + intros _. rewrite collection_submitWith_add by done.
      by rewrite submitWith_add.
    + by rewrite submitWith_add.
Qed.

Lemma buttonLabel_tells_path_witness :
  let w := exec (setTodoText (js "Buy oat milk"))
             (screen [buyMilk; cleanHouse] [] (Some (id buyMilk))) in
  buttonLabel (ui w) = js "Update"
  ∧ collection (fireWith true addOrUpdateTodo w)
    = [withTitle (js "Buy oat milk") buyMilk; cleanHouse]
  ∧ successMessage (ui (fireWith true addOrUpdateTodo w))
    = js "Todo edited successfully!"
  ∧ editingTodoId (ui (fireWith false addOrUpdateTodo w)) = Some (id buyMilk).
Proof.
  assert (Ht : trim (todoText (ui (exec (setTodoText (js "Buy oat milk"))
                 (screen [buyMilk; cleanHouse] [] (Some (id buyMilk)))))) ≠ [])
    by (intros H; vm_compute in H; discriminate H).
  pose proof (buttonLabel_tells_path true _ Ht) as [Hupd _].
  pose proof (buttonLabel_tells_path false _ Ht) as [Hrej _].
  destruct (Hupd eq_refl) as (Hc & Hm & _).
  destruct (Hrej eq_refl) as (_ & _ & He).
  split_and!.
  - reflexivity.
  - etrans; [exact Hc | by vm_compute].
  - exact Hm.
  - exact He.
Defined.

(** X12: deleting the task under edit does not leave edit mode, and the
    next submit changes no task.  After [beginEdit(id, title)],
    [remove(id)] and a submit of a text that is not blank, for a non-zero
    [id] and whatever becomes of the two writes: the edit target is still
    [id] after the removal, the collection after the submit is the one the
    removal left, and the submit clears the edit target and reports "Todo
    edited successfully!" when the store accepts its write, and leaves the
    edit target and the message alone when the store rejects it. *)
Theorem submit_after_deleting_edited ok1 ok2 text id0 title0 w :
  trim text ≠ [] →
  id0 ≠ Q2Qc 0 →
  let w1 := removeWith ok1 id0 (beginEdit id0 title0 w) in
  let w' := submitWith ok2 text w1 in
  collection w' = filter (λ todo, id todo ≠ id0) (collection w)
  ∧ editingTodoId (ui w1) = Some id0
  ∧ editingTodoId (ui w') = (if ok2 then None else Some id0)
  ∧ successMessage (ui w')
    = (if ok2 then js "Todo edited successfully!" else successMessage (ui w1)).
Proof.
  intros Ht Hz w1 w'.
  assert (He : editingTodoId (ui w1) = Some id0)
    by (unfold w1; by rewrite removeWith_world).
  assert (Hy : truthy_id (editingTodoId (ui w1)) = true)
    by (rewrite He; by apply truthy_id_Some).
  assert (Hc : collection w1 = filter (λ todo, id todo ≠ id0) (collection w))
    by (unfold w1; by rewrite collection_removeWith).
  split_and!; try done.
  - unfold w'. rewrite collection_submitWith_update by done.
    rewrite Hc. rewrite <- (list_fmap_id (filter _ _)) at 2.
    apply list_fmap_ext. intros i todo Hi.
    apply list_elem_of_lookup_2, list_elem_of_filter in Hi as [Hne _].
    rewrite (retitle_matching text id0) by done. by rewrite decide_False.
  - unfold w'. rewrite submitWith_update by done. cbn [ui editingTodoId].
    by rewrite He.
  - unfold w'. by rewrite submitWith_update.
Qed.

Lemma submit_after_deleting_edited_witness :
  let w := screen [buyMilk; cleanHouse] [] None in
  let w1 := removeWith true (id buyMilk)
              (beginEdit (id buyMilk) (title buyMilk) w) in
  (collection (submitWith true (js "Buy oat milk") w1) = [cleanHouse]
   ∧ successMessage (ui (submitWith true (js "Buy oat milk") w1))
     = js "Todo edited successfully!")
  ∧ (collection (submitWith false (js "Buy oat milk") w1) = [cleanHouse]
     ∧ editingTodoId (ui (submitWith false (js "Buy oat milk") w1))
       = Some (id buyMilk)).
Proof.
  assert (Ht : trim (js "Buy oat milk") ≠ [])
    by (intros H; vm_compute in H; discriminate H).
  assert (Hz : id buyMilk ≠ Q2Qc 0)
    by (intros H; vm_compute in H; discriminate H).
  pose proof (submit_after_deleting_edited true true (js "Buy oat milk")
                (id buyMilk) (title buyMilk)
                (screen [buyMilk; cleanHouse] [] None) Ht Hz)
    as (Hc & _ & _ & Hm).
  pose proof (submit_after_deleting_edited true false (js "Buy oat milk")
                (id buyMilk) (title buyMilk)
                (screen [buyMilk; cleanHouse] [] None) Ht Hz)
    as (Hc' & _ & He' & _).
  split; split.
  - etrans; [exact Hc | by vm_compute].
  - exact Hm.
  - etrans; [exact Hc' | by vm_compute].
  - exact He'.
Defined.

(** X13: pressing Edit on a task and then the button, without touching the
    text, changes no task.  When the identifiers of the collection are
    pairwise different, the task's title is not blank and its identifier is
    not [0], the collection afterwards is the collection before, whatever
    becomes of the write; edit mode is left when the store accepts the
    write and kept when it rejects it. *)
Theorem edit_unchanged_title ok todo w :
  todo ∈ collection w →
  NoDup (id <$> collection w) →
  trim (title todo) ≠ [] →
  id todo ≠ Q2Qc 0 →
  let w' := fireWith ok addOrUpdateTodo
              (beginEdit (id todo) (title todo) w) in
  collection w' = collection w
  ∧ editingTodoId (ui w') = (if ok then None else Some (id todo)).
Proof.
  intros Hin Hnd Ht Hz w'. unfold w'.
  rewrite fireWith_addOrUpdateTodo_submit.
  set (w1 := beginEdit (id todo) (title todo) w).
  assert (Hy : truthy_id (editingTodoId (ui w1)) = true)
    by by apply truthy_id_Some.
  split; [|by rewrite submitWith_update].
  rewrite collection_submitWith_update by done.
  change (collection w1) with (collection w).
  rewrite <- (list_fmap_id (collection w)) at 2.
  apply list_fmap_ext. intros i t Hi.
  rewrite (retitle_matching (title todo) (id todo)) by done.
  destruct (decide (id t = id todo)) as [E|E]; [|done].
  apply list_elem_of_lookup_2 in Hi.
  assert (t = todo) as -> by by eapply NoDup_fmap_inj_on.
  by destruct todo.
Qed.

Lemma edit_unchanged_title_witness :
  let w := screen [buyMilk; cleanHouse] [] None in
  let pressed ok := fireWith ok addOrUpdateTodo
                      (beginEdit (id cleanHouse) (title cleanHouse) w) in
  (collection (pressed true) = collection w
   ∧ editingTodoId (ui (pressed true)) = None)
  ∧ (collection (pressed false) = collection w
     ∧ editingTodoId (ui (pressed false)) = Some (id cleanHouse)).
Proof.
  assert (Hin : cleanHouse ∈ collection (screen [buyMilk; cleanHouse] [] None))
    by (apply (bool_decide_unpack _); vm_compute; exact I).
  assert (Hnd : NoDup (id <$> collection
                         (screen [buyMilk; cleanHouse] [] None)))
    by (apply (bool_decide_unpack _); vm_compute; exact I).
  assert (Ht : trim (title cleanHouse) ≠ [])
    by (intros H; vm_compute in H; discriminate H).
  assert (Hz : id cleanHouse ≠ Q2Qc 0)
    by (intros H; vm_compute in H; discriminate H).
  split.
  - exact (edit_unchanged_title true cleanHouse _ Hin Hnd Ht Hz).
  - exact (edit_unchanged_title false cleanHouse _ Hin Hnd Ht Hz).
Defined.

(** ** Renders, events and histories *)

Section Histories.

Variable toLowerCase : jsstring → jsstring.

Lemma render_world_empty w :
  searchQuery (ui w) = [] →
  (render toLowerCase w).2 = with_heap (alter reverse (todos (ui w))) w.
Proof.
  intros H. unfold render, FlatList_data, mbind, M_bind.
  by rewrite filteredTodos_query_empty.
Qed.

Lemma render_world_nonempty w :
  searchQuery (ui w) ≠ [] →
  (render toLowerCase w).2
  = with_heap (λ h, alter reverse (fresh (dom h))
      (<[fresh (dom h) := filter (matchesQuery toLowerCase (searchQuery (ui w)))
                            (collection w)]> h)) w.
Proof.
  intros H. unfold render, FlatList_data, mbind, M_bind.
  by rewrite filteredTodos_query_nonempty.
Qed.

Lemma allocated_fresh w : allocated w → fresh (dom (heap w)) ≠ todos (ui w).
Proof. intros [xs Hxs] E. rewrite <- E, fresh_heap in Hxs. done. Qed.

(** What a render does to the stored collection. *)
Lemma collection_render w :
  allocated w →
  collection (render toLowerCase w).2
  = if decide (searchQuery (ui w) = []) then reverse (collection w)
    else collection w.
Proof.
  intros Ha. destruct (decide _) as [Hq|Hq].
  - by apply render_query_empty.
  - by apply render_query_nonempty.
Qed.

(** A render changes the heap only. *)
Lemma render_frame w :
  ui (render toLowerCase w).2 = ui w
  ∧ storage (render toLowerCase w).2 = storage w
  ∧ effects (render toLowerCase w).2 = effects w
  ∧ entropy (render toLowerCase w).2 = entropy w
  ∧ drawn (render toLowerCase w).2 = drawn w.
Proof.
  destruct (decide (searchQuery (ui w) = [])) as [Hq|Hq].
  - by rewrite render_world_empty.
  - by rewrite render_world_nonempty.
Qed.

Lemma allocated_render w : allocated w → allocated (render toLowerCase w).2.
Proof.
  intros Ha. unfold allocated.
  destruct (decide (searchQuery (ui w) = [])) as [Hq|Hq].
  - rewrite render_world_empty by done. unfold with_heap. cbn [heap ui].
    rewrite lookup_alter_eq. by apply fmap_is_Some.
  - rewrite render_world_nonempty by done. unfold with_heap. cbn [heap ui].
    pose proof (allocated_fresh w Ha).
    by rewrite lookup_alter_ne, lookup_insert_ne.
Qed.

Lemma allocated_react e w : allocated w → allocated (react toLowerCase e w).
Proof.
  intros Ha. destruct e; cbn [react]; try done.
  - rewrite fire_addOrUpdateTodo_submit.
    destruct (decide (trim (todoText (ui w)) = [])) as [Ht|Ht].
    + rewrite submit_blank by done. by rewrite setTodoText_same.
    + unfold allocated. destruct (truthy_id (editingTodoId (ui w))) eqn:He.
      * rewrite submit_update by done. cbn [heap ui todos].
        by rewrite lookup_insert_eq.
      * rewrite submit_add by done. cbn [heap ui todos].
        by rewrite lookup_insert_eq.
  - unfold allocated. change (fire _ w) with (toggleDoneWith true id0 w).
    rewrite toggleDoneWith_world. cbn [heap ui todos].
    by rewrite lookup_insert_eq.
  - unfold allocated. change (fire _ w) with (removeWith true id0 w).
    rewrite removeWith_world. cbn [heap ui todos].
    by rewrite lookup_insert_eq.
  - by apply allocated_render.
Qed.

Lemma allocated_mount kv rnd : allocated (mount kv rnd).
Proof.
  unfold mount, allocated. rewrite loadTodos_world. cbn [storage unmounted].
  destruct (kv !! js "my-todo") as [xs|] eqn:E.
  - cbn [heap ui todos]. by rewrite lookup_insert_eq.
  - by eexists.
Qed.

Lemma run_snoc es e w :
  run toLowerCase (es ++ [e]) w = react toLowerCase e (run toLowerCase es w).
Proof. unfold run. by rewrite foldl_app. Qed.

Lemma allocated_run es w : allocated w → allocated (run toLowerCase es w).
Proof.
  intros Ha. induction es as [|e es IH] using rev_ind; [done|].
  rewrite run_snoc. by apply allocated_react.
Qed.

Lemma storeFollows_react e w :
  allocated w → storeFollows w → storeFollows (react toLowerCase e w).
Proof.
  intros Ha Hc. destruct e; cbn [react]; try done.
  - rewrite fire_addOrUpdateTodo_submit.
    destruct (decide (trim (todoText (ui w)) = [])) as [Ht|Ht].
    + rewrite submit_blank by done. by rewrite setTodoText_same.
    + left. by apply stored_submit.
  - left. apply stored_toggleDone.
  - left. apply stored_remove.
  - unfold storeFollows, stored. destruct (render_frame w) as (_ & -> & _).
    rewrite collection_render by done. fold (stored w).
    destruct (decide _); [|done]. rewrite reverse_involutive.
    destruct Hc; [by right | by left].
Qed.

Lemma storeFollows_mount kv rnd : storeFollows (mount kv rnd).
Proof.
  left. rewrite collection_mount.
  unfold stored, mount. rewrite loadTodos_world. cbn [storage unmounted].
  destruct (kv !! js "my-todo") as [xs|] eqn:E.
  all: unfold emit; cbn [storage unmounted]; f_equal; exact E.
Qed.

Lemma storeFollows_run kv rnd es :
  storeFollows (run toLowerCase es (mount kv rnd)).
Proof.
  induction es as [|e es IH] using rev_ind; [apply storeFollows_mount|].
  rewrite run_snoc. apply storeFollows_react; [|done].
  apply allocated_run, allocated_mount.
Qed.

Lemma titlesNotBlank_react e w :
  allocated w →
  titlesNotBlank (collection w) →
  titlesNotBlank (collection (react toLowerCase e w)).
Proof.
  unfold titlesNotBlank. intros Ha Hc. destruct e; cbn [react]; try done.
  - rewrite fire_addOrUpdateTodo_submit.
    destruct (decide (trim (todoText (ui w)) = [])) as [Ht|Ht].
    + by rewrite submit_blank.
    + destruct (truthy_id (editingTodoId (ui w))) eqn:He.
      * rewrite collection_submit_update by done.
        apply Forall_fmap. eapply Forall_impl; [exact Hc|].
        intros todo Htodo. simpl. unfold retitle.
        by destruct (decide _).
      * rewrite collection_submit_add by done.
        apply Forall_app. split; [done|]. by repeat constructor.
  - change (fire _ w) with (toggleDone id0 w). rewrite collection_toggleDone.
    apply Forall_fmap. eapply Forall_impl; [exact Hc|].
    intros todo Htodo. simpl. by rewrite title_flipDone.
  - change (fire _ w) with (remove id0 w). rewrite collection_remove.
    eapply Forall_sublist_of; [apply sublist_filter | done].
  - rewrite collection_render by done.
    destruct (decide _); [by apply Forall_reverse | done].
Qed.

(** X4: no blank title ever enters.  If no stored title is blank when the
    screen is mounted, then after every history no title of the collection
    and no title in the store is blank. *)
Theorem titles_never_blank kv rnd es :
  titlesNotBlank (default [] (kv !! js "my-todo")) →
  let w := run toLowerCase es (mount kv rnd) in
  titlesNotBlank (collection w) ∧ titlesNotBlank (stored w).
Proof.
  intros Hkv w.
  assert (Hc : titlesNotBlank (collection w)).
  { unfold w. clear w. induction es as [|e es IH] using rev_ind.
    - unfold run. simpl. by rewrite collection_mount.
    - rewrite run_snoc. apply titlesNotBlank_react; [|done].
      apply allocated_run, allocated_mount. }
  split; [done|].
  destruct (storeFollows_run kv rnd es) as [E|E];
    fold w in E; rewrite E; [done | by apply Forall_reverse].
Qed.

Lemma fmap_filter_sublist {A B} (f : A → B) (g : nat → B)
    (P : A → Prop) `{∀ x, Decision (P x)} (l : list A) (ks : list nat) :
  f <$> l = g <$> ks →
  ∃ ks', ks' `sublist_of` ks ∧ f <$> filter P l = g <$> ks'.
Proof.
  revert ks. induction l as [|x l IH]; intros ks E.
  - exists []. split; [apply sublist_nil_l | done].
  - destruct ks as [|k ks]; [done|]. rewrite !fmap_cons in E.
    injection E as Ex El. destruct (IH ks El) as (ks' & Hs & Hf).
    destruct (decide (P x)).
    + exists (k :: ks'). split; [by constructor|].
      rewrite filter_cons_True by done. rewrite !fmap_cons. by f_equal.
    + exists ks'. split; [by constructor|].
      by rewrite filter_cons_False.
Qed.

Lemma drawnIds_react rnd e w :
  allocated w → drawnIds rnd w → drawnIds rnd (react toLowerCase e w).
Proof.
  intros Ha (Hr & ks & Hnd & Hlt & Hids).
  destruct e; cbn [react]; try (split; [done|]; by exists ks).
  - rewrite fire_addOrUpdateTodo_submit.
    destruct (decide (trim (todoText (ui w)) = [])) as [Ht|Ht].
    + rewrite submit_blank by done. split; [done|]. by exists ks.
    + destruct (truthy_id (editingTodoId (ui w))) eqn:He.
      * split; [by rewrite submit_update|]. exists ks.
        rewrite collection_submit_update, submit_update by done.
        cbn [drawn]. split_and!; try done.
        rewrite <- Hids. apply fmap_fmap_same, id_retitle.
      * split; [by rewrite submit_add|]. exists (ks ++ [drawn w]).
        rewrite collection_submit_add, submit_add by done.
        cbn [drawn]. split_and!.
        -- apply NoDup_app. split_and!; [done | | apply NoDup_singleton].
           intros k Hk Hk'. apply list_elem_of_singleton in Hk' as ->.
           rewrite Forall_forall in Hlt. specialize (Hlt _ Hk). lia.
        -- apply Forall_app. split.
           ++ eapply Forall_impl; [exact Hlt|]. intros; simpl in *; lia.
           ++ repeat constructor.
        -- rewrite !fmap_app, Hids. simpl. by rewrite Hr.
  - change (fire _ w) with (toggleDone id0 w). split; [done|]. exists ks.
    rewrite collection_toggleDone. split_and!; try done.
    rewrite <- Hids. apply fmap_fmap_same, id_flipDone.
  - change (fire _ w) with (remove id0 w). split; [done|].
    rewrite collection_remove.
    destruct (fmap_filter_sublist id rnd (λ todo, id todo ≠ id0)
                (collection w) ks Hids) as (ks' & Hs & Hf).
    exists ks'. split_and!.
    + by eapply sublist_NoDup.
    + by eapply Forall_sublist_of.
    + done.
  - destruct (render_frame w) as (_ & _ & _ & He & Hd).
    split; [by rewrite He|]. rewrite collection_render, Hd by done.
    destruct (decide _); [|by exists ks].
    exists (reverse ks). split_and!.
    + by rewrite reverse_Permutation.
    + by apply Forall_reverse.
    + by rewrite !fmap_reverse, Hids.
Qed.

(** X5: identifiers collide only when [Math.random()] repeats itself.  From
    a first start over an empty store, after every history, if the values
    drawn so far are pairwise different then so are the identifiers of the
    collection. *)
Theorem identifiers_distinct rnd es :
  let w := run toLowerCase es (mount ∅ rnd) in
  NoDup (rnd <$> seq 0 (drawn w)) →
  NoDup (id <$> collection w).
Proof.
  intros w Hrnd.
  assert (Hd : drawnIds rnd w).
  { unfold w. clear w Hrnd. induction es as [|e es IH] using rev_ind.
    - split; [done|]. exists []. split_and!; by try constructor.
    - rewrite run_snoc. apply drawnIds_react; [|done].
      apply allocated_run, allocated_mount. }
  destruct Hd as (_ & ks & Hnd & Hlt & ->).
  apply NoDup_fmap_2_strong; [|done].
  intros i j Hi Hj E. rewrite Forall_forall in Hlt.
  pose proof (Hlt _ Hi). pose proof (Hlt _ Hj).
  eapply (NoDup_lookup _ i j (rnd i) Hrnd).
  - rewrite list_lookup_fmap, lookup_seq_lt by done. done.
  - rewrite list_lookup_fmap, lookup_seq_lt by done. simpl. by rewrite E.
Qed.

(** X6: the one place where an existing array is changed is the render
    under an empty query, and the one array it changes is the collection.
    Every other event, and a render under a query, leaves each array that
    existed before as it was. *)
Theorem only_render_mutates e l w :
  is_Some (heap w !! l) →
  (e = Render → searchQuery (ui w) = [] → l ≠ todos (ui w)) →
  heap (react toLowerCase e w) !! l = heap w !! l.
Proof.
  intros [xs Hl] Hr.
  assert (Hf : fresh (dom (heap w)) ≠ l)
    by (intros E; rewrite <- E, fresh_heap in Hl; done).
  destruct e; cbn [react]; try done.
  - rewrite fire_addOrUpdateTodo_submit.
    destruct (decide (trim (todoText (ui w)) = [])) as [Ht|Ht].
    + by rewrite submit_blank.
    + destruct (truthy_id (editingTodoId (ui w))) eqn:He.
      * rewrite submit_update by done. cbn [heap].
        by rewrite lookup_insert_ne.
      * rewrite submit_add by done. cbn [heap].
        by rewrite lookup_insert_ne.
  - change (fire _ w) with (toggleDoneWith true id0 w).
    rewrite toggleDoneWith_world. cbn [heap]. by rewrite lookup_insert_ne.
  - change (fire _ w) with (removeWith true id0 w).
    rewrite removeWith_world. cbn [heap]. by rewrite lookup_insert_ne.
  - destruct (decide (searchQuery (ui w) = [])) as [Hq|Hq].
    + rewrite render_world_empty by done. unfold with_heap. cbn [heap].
      rewrite lookup_alter_ne; [done|]. intros E. by apply Hr.
    + rewrite render_world_nonempty by done. unfold with_heap. cbn [heap].
      by rewrite lookup_alter_ne, lookup_insert_ne.
Qed.

(** X7: under an empty query the display alternates.  The first render
    shows the collection reversed; the render after it shows the collection
    in its original order, oldest task first, and leaves the stored
    collection as it was before the two. *)
Theorem render_twice_restores w :
  searchQuery (ui w) = [] →
  let w1 := (render toLowerCase w).2 in
  (render toLowerCase w).1 = reverse (collection w)
  ∧ (render toLowerCase w1).1 = collection w
  ∧ collection (render toLowerCase w1).2 = collection w.
Proof.
  intros Hq w1.
  destruct (render_query_empty toLowerCase w Hq) as [Hs Hc].
  assert (Hq1 : searchQuery (ui w1) = []).
  { unfold w1. by destruct (render_frame w) as (-> & _). }
  destruct (render_query_empty toLowerCase w1 Hq1) as [Hs1 Hc1].
  fold w1 in Hc. rewrite Hc, reverse_involutive in Hs1, Hc1. done.
Qed.

(** X8: under a query the display is sound and stable.  What is shown,
    read from the bottom up, is exactly the tasks whose lower-cased title
    contains the lower-cased query, in the order of the collection; the
    stored collection is not changed; and the next render shows the same
    list. *)
Theorem render_with_query w :
  searchQuery (ui w) ≠ [] →
  allocated w →
  let w1 := (render toLowerCase w).2 in
  selects (containsIgnoringCase toLowerCase (searchQuery (ui w)))
    (collection w) (reverse (render toLowerCase w).1)
  ∧ collection w1 = collection w
  ∧ (render toLowerCase w1).1 = (render toLowerCase w).1.
Proof.
  intros Hq Ha w1.
  destruct (render_query_nonempty toLowerCase w Hq Ha) as [Hs Hc].
  assert (Hu : ui w1 = ui w)
    by (unfold w1; by destruct (render_frame w) as (-> & _)).
  assert (Hq1 : searchQuery (ui w1) ≠ []) by by rewrite Hu.
  assert (Ha1 : allocated w1) by by apply allocated_render.
  destruct (render_query_nonempty toLowerCase w1 Hq1 Ha1) as [Hs1 _].
  split_and!.
  - rewrite Hs, reverse_involutive. apply filter_selects.
    intros todo. apply matchesQuery_infix.
  - done.
  - fold w1 in Hc. by rewrite Hs1, Hs, Hu, Hc.
Qed.

(** X9: a task added after a render under an empty query lands behind
    the reversed collection.  Whatever becomes of the write, the collection
    then holds the old tasks newest first followed by the new task, and the
    next render shows the new task on top of the old ones oldest first.
    The store holds that same list when it accepts the write, and what it
    held before when it rejects it. *)
Theorem add_after_render ok text w :
  searchQuery (ui w) = [] →
  trim text ≠ [] →
  truthy_id (editingTodoId (ui w)) = false →
  let newTodo :=
    {| id := entropy w (drawn w); title := text; isDone := false |} in
  let w1 := submitWith ok text (render toLowerCase w).2 in
  collection w1 = reverse (collection w) ++ [newTodo]
  ∧ stored w1
    = (if ok then reverse (collection w) ++ [newTodo] else stored w)
  ∧ (render toLowerCase w1).1 = newTodo :: collection w.
Proof.
  intros Hq Ht He newTodo w1.
  destruct (render_query_empty toLowerCase w Hq) as [_ Hc].
  destruct (render_frame w) as (Hu & Hst & _ & Hr & Hd).
  assert (Hc1 : collection w1 = reverse (collection w) ++ [newTodo]).
  { unfold w1. rewrite collection_submitWith_add by (by rewrite ?Hu).
    by rewrite Hc, Hr, Hd. }
  assert (Hq1 : searchQuery (ui w1) = []).
  { unfold w1. rewrite submitWith_add by (by rewrite ?Hu).
    cbn [ui searchQuery]. by rewrite Hu. }
  split_and!.
  - done.
  - unfold stored, w1 at 1. rewrite storage_submitWith by done.
    fold w1. destruct ok.
    + by rewrite lookup_insert_eq, Hc1.
    + by rewrite Hst.
  - destruct (render_query_empty toLowerCase w1 Hq1) as [-> _].
    by rewrite Hc1, reverse_app, reverse_involutive.
Qed.

(** X19: toggling does not change what a search finds.  The view of a
    query after [toggleDone] is the view before it with the same toggle
    applied to its tasks: the same tasks match, at the same places. *)
Theorem search_after_toggle q id0 w :
  (search toLowerCase q (toggleDone id0 w)).1
  = flipDone id0 <$> (search toLowerCase q w).1.
Proof.
  unfold search. destruct (decide (q = [])) as [->|Hq].
  - rewrite !filteredTodos_query_empty by done. cbn [fst snd].
    apply collection_toggleDone.
  - rewrite !filteredTodos_query_nonempty by done. cbn [fst snd].
    unfold deref at 1 3, with_heap. cbn [heap].
    rewrite !lookup_insert_eq. cbn [default].
    change (deref ?w (todos (ui ?w))) with (collection w).
    change (collection (exec (setSearchQuery q) (toggleDone id0 w)))
      with (collection (toggleDone id0 w)).
    change (collection (exec (setSearchQuery q) w)) with (collection w).
    rewrite collection_toggleDone.
    apply filter_fmap_comm. intros todo. unfold matchesQuery.
    by rewrite title_flipDone.
Qed.

End Histories.

(** *** The properties at sample histories *)

Lemma titles_never_blank_witness :
  let w := run ascii_toLowerCase
             [TypeText (js "  "); PressSubmit; Render;
              PressEdit (id buyMilk) (title buyMilk); TypeText [];
              PressSubmit; TypeText (js "Walk dog"); PressSubmit; Render]
             (mount {[ js "my-todo" := [buyMilk; cleanHouse] ]} halving) in
  titlesNotBlank (collection w) ∧ titlesNotBlank (stored w).
Proof.
  apply (titles_never_blank ascii_toLowerCase).
  apply (bool_decide_unpack _). vm_compute. exact I.
Defined.

Lemma identifiers_distinct_witness :
  let w := run ascii_toLowerCase
             [TypeText (js "Buy milk"); PressSubmit; Render;
              TypeText (js "Walk dog"); PressSubmit; Render;
              PressDelete (halving 0); TypeText (js "Clean house");
              PressSubmit]
             (mount ∅ halving) in
  NoDup (id <$> collection w).
Proof.
  apply (identifiers_distinct ascii_toLowerCase).
  apply (bool_decide_unpack _). vm_compute. exact I.
Defined.

Lemma only_render_mutates_witness :
  let w := screen [buyMilk; cleanHouse] [] None in
  heap (react ascii_toLowerCase (PressCheckbox (id buyMilk)) w) !! 1%positive
  = heap w !! 1%positive.
Proof.
  apply (only_render_mutates ascii_toLowerCase).
  - exists [buyMilk; cleanHouse]. reflexivity.
  - intros E. discriminate E.
Defined.

Lemma render_twice_restores_witness :
  let w := screen [buyMilk; cleanHouse] [] None in
  (render ascii_toLowerCase (render ascii_toLowerCase w).2).1 = collection w.
Proof.
  exact (proj1 (proj2 (render_twice_restores ascii_toLowerCase
                         (screen [buyMilk; cleanHouse] [] None) eq_refl))).
Defined.

Lemma render_with_query_witness :
  let w := screen [buyMilk; cleanHouse; buyBread] (js "BUY") None in
  collection (render ascii_toLowerCase w).2 = collection w
  ∧ (render ascii_toLowerCase (render ascii_toLowerCase w).2).1
    = (render ascii_toLowerCase w).1.
Proof.
  refine (proj2 (render_with_query ascii_toLowerCase
            (screen [buyMilk; cleanHouse; buyBread] (js "BUY") None) _ _)).
  - intros H. vm_compute in H. discriminate H.
  - exists [buyMilk; cleanHouse; buyBread]. reflexivity.
Defined.

Lemma add_after_render_witness :
  let w := screen [buyMilk; cleanHouse] [] None in
  let newTodo :=
    {| id := Q2Qc (1 # 8); title := js "Walk dog"; isDone := false |} in
  let added ok := submitWith ok (js "Walk dog") (render ascii_toLowerCase w).2 in
  (render ascii_toLowerCase (added true)).1 = newTodo :: collection w
  ∧ stored (added true) = [cleanHouse; buyMilk; newTodo]
  ∧ (render ascii_toLowerCase (added false)).1 = newTodo :: collection w
  ∧ stored (added false) = [buyMilk; cleanHouse].
Proof.
  assert (Ht : trim (js "Walk dog") ≠ [])
    by (intros H; vm_compute in H; discriminate H).
  pose proof (add_after_render ascii_toLowerCase true (js "Walk dog")
                (screen [buyMilk; cleanHouse] [] None) eq_refl Ht eq_refl)
    as (_ & Hs & Hr).
  pose proof (add_after_render ascii_toLowerCase false (js "Walk dog")
                (screen [buyMilk; cleanHouse] [] None) eq_refl Ht eq_refl)
    as (_ & Hs' & Hr').
  split_and!.
  - exact Hr.
  - etrans; [exact Hs | by vm_compute].
  - exact Hr'.
  - etrans; [exact Hs' | by vm_compute].
Defined.

(** ** Handlers in flight *)

(** The handlers as they stand at their [await]: the world there is the
    world of the run in which the write is rejected. *)
Lemma addOrUpdateTodo_returns w :
  trim (todoText (ui w)) = [] → addOrUpdateTodo (ui w) w = Returned () w.
Proof. intros H. unfold addOrUpdateTodo. by rewrite decide_True. Qed.

Lemma updateTodo_suspends w :
  trim (todoText (ui w)) ≠ [] →
  truthy_id (editingTodoId (ui w)) = true →
  suspendsAt (addOrUpdateTodo (ui w) w)
    (AsyncStorage_setItem (js "my-todo") (retitle (ui w) <$> collection w))
    (fireWith false addOrUpdateTodo w)
    (setSuccessMessage (js "Todo edited successfully!");;
     setEditingTodoId None;; resetTodoInput).
Proof.
  intros Ht He. unfold suspendsAt, fireWith, outcome, addOrUpdateTodo.
  rewrite decide_False by done. rewrite He. clear Ht He.
  destruct w as [h [l t q e m] st ef en dr].
  eexists. split_and!.
  - run_async. rewrite lookup_insert_eq. cbn [default]. reflexivity.
  - intros x [h2 [l2 t2 q2 e2 m2] st2 ef2 en2 dr2]. by run_async.
  - intros [h2 [l2 t2 q2 e2 m2] st2 ef2 en2 dr2]. by run_async.
Qed.

Lemma addTodo_suspends w :
  trim (todoText (ui w)) ≠ [] →
  truthy_id (editingTodoId (ui w)) = false →
  suspendsAt (addOrUpdateTodo (ui w) w)
    (AsyncStorage_setItem (js "my-todo")
       (collection w ++ [{| id := entropy w (drawn w);
                            title := todoText (ui w); isDone := false |}]))
    (fireWith false addOrUpdateTodo w)
    (setSuccessMessage (js "Todo added successfully!");; resetTodoInput).
Proof.
  intros Ht He. unfold suspendsAt, fireWith, outcome, addOrUpdateTodo.
  rewrite decide_False by done. rewrite He. clear Ht He.
  destruct w as [h [l t q e m] st ef en dr].
  eexists. split_and!.
  - run_async. rewrite lookup_insert_eq. cbn [default]. reflexivity.
  - intros x [h2 [l2 t2 q2 e2 m2] st2 ef2 en2 dr2]. by run_async.
  - intros [h2 [l2 t2 q2 e2 m2] st2 ef2 en2 dr2]. by run_async.
Qed.

Lemma deleteTodo_suspends id0 w :
  suspendsAt (deleteTodo (ui w) id0 w)
    (AsyncStorage_setItem (js "my-todo")
       (filter (λ todo, id todo ≠ id0) (collection w)))
    (removeWith false id0 w)
    (setSuccessMessage (js "Todo deleted successfully!");;
     setTimeout_clearMessage 3000).
Proof.
  unfold suspendsAt, removeWith, fireWith, outcome.
  destruct w as [h [l t q e m] st ef en dr].
  eexists. split_and!.
  - run_async. rewrite lookup_insert_eq. cbn [default]. reflexivity.
  - intros x [h2 [l2 t2 q2 e2 m2] st2 ef2 en2 dr2]. by run_async.
  - intros [h2 [l2 t2 q2 e2 m2] st2 ef2 en2 dr2]. by run_async.
Qed.

Lemma handleDone_suspends id0 w :
  suspendsAt (handleDone (ui w) id0 w)
    (AsyncStorage_setItem (js "my-todo") (flipDone id0 <$> collection w))
    (toggleDoneWith false id0 w)
    (mret ()).
Proof.
  unfold suspendsAt, toggleDoneWith, fireWith, outcome.
  destruct w as [h [l t q e m] st ef en dr].
  eexists. split_and!.
  - run_async. rewrite lookup_insert_eq. cbn [default]. reflexivity.
  - intros x [h2 [l2 t2 q2 e2 m2] st2 ef2 en2 dr2]. by run_async.
  - intros [h2 [l2 t2 q2 e2 m2] st2 ef2 en2 dr2]. by run_async.
Qed.

(** A call accepted as soon as it is made: starting the handler and
    settling its call is the run in which the write is accepted. *)
Lemma settle_at_once (m : Async unit) c w w1 tail :
  suspendsAt (m w) c w1 tail →
  settle 0 true (launch m (idle w)) = idle (outcome true m w).
Proof.
  intros (rest & Hst & Hok & _).
  unfold launch, idle, outcome. cbn [world waiting]. rewrite Hst.
  unfold settle. cbn [park waiting world app lookup list_lookup finish].
  destruct (settleCall c true w1) as [r w2] eqn:Hs.
  destruct c; injection Hs as <- <-; by rewrite !Hok.
Qed.

Lemma loadTodos_suspends w :
  ∃ rest,
    loadTodos w = Awaiting (AsyncStorage_getItem (js "my-todo"))
                    (emit (GetItem (js "my-todo")) w) rest
    ∧ keepsOrClears rest
    ∧ (∀ x w2, ∃ w3, rest (Fulfilled x) w2 = Returned () w3).
Proof.
  destruct w as [h [l t q e m] st ef en dr].
  eexists. split_and!.
  - run_async. reflexivity.
  - intros [[xs|]|] [h2 [l2 t2 q2 e2 m2] st2 ef2 en2 dr2];
      eexists; (split; [left; run_async; reflexivity | by left]).
  - intros [xs|] [h2 [l2 t2 q2 e2 m2] st2 ef2 en2 dr2];
      eexists; run_async; reflexivity.
Qed.

Lemma boot_settled kv rnd : settle 0 true (boot kv rnd) = idle (mount kv rnd).
Proof.
  unfold boot, mount, launch, idle, outcome. cbn [world waiting].
  destruct (loadTodos_suspends (unmounted kv rnd)) as (rest & -> & _ & Hok).
  unfold settle.
  cbn [park waiting world app lookup list_lookup finish settleCall].
  by destruct (Hok (storage (emit (GetItem (js "my-todo")) (unmounted kv rnd))
                      !! js "my-todo")
                   (emit (GetItem (js "my-todo")) (unmounted kv rnd)))
    as [w3 ->].
Qed.

(** What a waiting handler does to the edit target once its call is
    settled, from what its tail does to it. *)
Lemma suspendsAt_keepsOrClears st c w1 tail :
  suspendsAt st c w1 tail →
  (∀ w, editingTodoId (ui (exec tail w)) = editingTodoId (ui w)
        ∨ editingTodoId (ui (exec tail w)) = None) →
  ∃ rest, st = Awaiting c w1 rest ∧ keepsOrClears rest.
Proof.
  intros (rest & Hst & Hok & Hrej) Htail. exists rest. split; [done|].
  intros [x|] w.
  - exists (exec tail w). split; [left; apply Hok|].
    destruct (Htail w); [by left | by right].
  - exists w. split; [right; apply Hrej | by left].
Qed.

(** Each handler, started in any world, returns at once or waits quietly,
    and has not touched the edit target by then. *)
Lemma addOrUpdateTodo_starts w :
  ∃ w1, editingTodoId (ui w1) = editingTodoId (ui w)
    ∧ (addOrUpdateTodo (ui w) w = Returned () w1
       ∨ ∃ c rest, addOrUpdateTodo (ui w) w = Awaiting c w1 rest
                   ∧ keepsOrClears rest).
Proof.
  destruct (decide (trim (todoText (ui w)) = [])) as [Ht|Ht].
  { exists w. split; [done|]. left. by apply addOrUpdateTodo_returns. }
  exists (fireWith false addOrUpdateTodo w). split.
  { rewrite fireWith_addOrUpdateTodo_submit.
    destruct (truthy_id (editingTodoId (ui w))) eqn:He.
    - by rewrite submitWith_update.
    - by rewrite submitWith_add. }
  right. destruct (truthy_id (editingTodoId (ui w))) eqn:He.
  - destruct (suspendsAt_keepsOrClears _ _ _ _ (updateTodo_suspends w Ht He))
      as (rest & Hst & Hk); [|by eauto].
    intros [h [l t q e m] st ef en dr]. by right.
  - destruct (suspendsAt_keepsOrClears _ _ _ _ (addTodo_suspends w Ht He))
      as (rest & Hst & Hk); [|by eauto].
    intros [h [l t q e m] st ef en dr]. by left.
Qed.

Lemma handleDone_starts id0 w :
  ∃ w1, editingTodoId (ui w1) = editingTodoId (ui w)
    ∧ (handleDone (ui w) id0 w = Returned () w1
       ∨ ∃ c rest, handleDone (ui w) id0 w = Awaiting c w1 rest
                   ∧ keepsOrClears rest).
Proof.
  exists (toggleDoneWith false id0 w). split.
  { by rewrite toggleDoneWith_world. }
  right.
  destruct (suspendsAt_keepsOrClears _ _ _ _ (handleDone_suspends id0 w))
    as (rest & Hst & Hk); [|by eauto].
  intros [h [l t q e m] st ef en dr]. by left.
Qed.

Lemma deleteTodo_starts id0 w :
  ∃ w1, editingTodoId (ui w1) = editingTodoId (ui w)
    ∧ (deleteTodo (ui w) id0 w = Returned () w1
       ∨ ∃ c rest, deleteTodo (ui w) id0 w = Awaiting c w1 rest
                   ∧ keepsOrClears rest).
Proof.
  exists (removeWith false id0 w). split.
  { by rewrite removeWith_world. }
  right.
  destruct (suspendsAt_keepsOrClears _ _ _ _ (deleteTodo_suspends id0 w))
    as (rest & Hst & Hk); [|by eauto].
  intros [h [l t q e m] st ef en dr]. by left.
Qed.

Lemma launch_quiet (m : Async unit) s :
  (∃ w1, editingTodoId (ui w1) = editingTodoId (ui (world s))
     ∧ (m (world s) = Returned () w1
        ∨ ∃ c rest, m (world s) = Awaiting c w1 rest ∧ keepsOrClears rest)) →
  quiet s →
  quiet (launch m s) ∧ editing (launch m s) = editing s.
Proof.
  intros (w1 & Hed & [Hst|(c & rest & Hst & Hk)]) Hq;
    unfold launch, quiet, editing; rewrite Hst; cbn [park waiting world].
  - done.
  - split; [|done]. apply Forall_app. split; [done|]. by constructor.
Qed.

Lemma settle_quiet n ok s :
  quiet s →
  quiet (settle n ok s)
  ∧ (editing (settle n ok s) = editing s
     ∨ (ok = true ∧ editing (settle n ok s) = None)).
Proof.
  intros Hq. unfold settle.
  destruct (waiting s !! n) as [[c rest]|] eqn:E; [|by auto].
  assert (keepsOrClears rest) as Hk.
  { unfold quiet in Hq. rewrite Forall_lookup in Hq. exact (Hq _ _ E). }
  destruct (settleCall c ok (world s)) as [r w2] eqn:Hs.
  assert (editingTodoId (ui w2) = editingTodoId (ui (world s))
          ∧ (ok = false → r = Rejected)) as [Hw2 Hr].
  { unfold settleCall in Hs.
    destruct ok, c; injection Hs as <- <-; by split. }
  assert (quiet {| world := world s; waiting := delete n (waiting s) |})
    as Hd.
  { unfold quiet. cbn [waiting]. by apply Forall_delete. }
  destruct (Hk r w2) as (w' & Hst & Hed).
  assert (park (rest r w2) (delete n (waiting s))
          = {| world := w'; waiting := delete n (waiting s) |}) as ->.
  { by destruct Hst as [-> | ->]. }
  split; [exact Hd|]. unfold editing. cbn [world].
  destruct Hed as [Hed | [Hne Hed]].
  - left. by rewrite Hed.
  - right. split; [|done]. destruct ok; [done|]. by destruct Hne; apply Hr.
Qed.

Section Flight.

Variable toLowerCase : jsstring → jsstring.

Lemma play_snoc hs h s :
  play toLowerCase (hs ++ [h]) s
  = happen toLowerCase h (play toLowerCase hs s).
Proof. unfold play. by rewrite foldl_app. Qed.

Lemma quiet_happen h s : quiet s → quiet (happen toLowerCase h s).
Proof.
  intros Hq. destruct h as [e|n ok]; [|by apply settle_quiet].
  destruct e as [text|query| |id0|id0 title0|id0| |]; cbn [happen];
    try done.
  - by apply launch_quiet; [apply addOrUpdateTodo_starts|].
  - by apply launch_quiet; [apply handleDone_starts|].
  - by apply launch_quiet; [apply deleteTodo_starts|].
Qed.

Lemma quiet_boot kv rnd : quiet (boot kv rnd).
Proof.
  unfold boot, launch, idle, quiet. cbn [world waiting].
  destruct (loadTodos_suspends (unmounted kv rnd)) as (rest & -> & Hk & _).
  cbn [park waiting app]. by constructor.
Qed.

Lemma quiet_play hs s : quiet s → quiet (play toLowerCase hs s).
Proof.
  intros Hq. induction hs as [|h hs IH] using rev_ind; [done|].
  rewrite play_snoc. by apply quiet_happen.
Qed.

(** An event whose call the store accepts before anything else happens is
    the event run in one piece. *)
Lemma happen_promptly e w :
  happen toLowerCase (Settles 0 true) (happen toLowerCase (Does e) (idle w))
  = idle (react toLowerCase e w).
Proof.
  destruct e as [text|query| |id0|id0 title0|id0| |]; cbn [happen react].
  - done.
  - done.
  - destruct (decide (trim (todoText (ui w)) = [])) as [Ht|Ht].
    + unfold fire, fireWith, outcome, launch, idle. cbn [world waiting].
      by rewrite addOrUpdateTodo_returns.
    + destruct (truthy_id (editingTodoId (ui w))) eqn:He.
      * exact (settle_at_once (addOrUpdateTodo (ui w)) _ w _ _
                 (updateTodo_suspends w Ht He)).
      * exact (settle_at_once (addOrUpdateTodo (ui w)) _ w _ _
                 (addTodo_suspends w Ht He)).
  - exact (settle_at_once (handleDone (ui w) id0) _ w _ _
             (handleDone_suspends id0 w)).
  - done.
  - exact (settle_at_once (deleteTodo (ui w) id0) _ w _ _
             (deleteTodo_suspends id0 w)).
  - done.
  - done.
Qed.

Lemma play_promptly es w :
  play toLowerCase (promptly es) (idle w) = idle (run toLowerCase es w).
Proof.
  revert w. induction es as [|e es IH]; intros w; [done|].
  change (promptly (e :: es))
    with ([Does e; Settles 0 true] ++ promptly es).
  unfold play, run. rewrite foldl_app. cbn [foldl].
  rewrite happen_promptly. apply IH.
Qed.

(** X3: as long as the store accepts every call before the next event
    happens (the read made at mount, then each press's write), no handler
    is left waiting and the store holds the tasks of the collection, either
    in the collection's order or in the reverse order; the reverse arises
    from a render under an empty query. *)
Theorem store_follows_collection kv rnd es :
  let s := play toLowerCase (Settles 0 true :: promptly es) (boot kv rnd) in
  waiting s = []
  ∧ (stored (world s) = collection (world s)
     ∨ stored (world s) = reverse (collection (world s))).
Proof.
  cbn zeta. unfold play. cbn [foldl happen]. rewrite boot_settled.
  fold (play toLowerCase (promptly es) (idle (mount kv rnd))).
  rewrite play_promptly. split; [done|]. apply storeFollows_run.
Qed.

(** X10: how the edit target moves, on every screen reached from the mount
    by any events and any settlements of the store in any order.  Pressing
    Edit sets it to the identifier given.  Nothing else a user does moves
    it: not typing, searching, toggling, deleting, a timer or a render, and
    not the press of the button itself, whose handler only goes to wait
    for the store.  When the store rejects a call the target stays.  When
    the store accepts a call the target stays or is cleared. *)
Theorem edit_target_transitions kv rnd hs h :
  let s := play toLowerCase hs (boot kv rnd) in
  let s' := happen toLowerCase h s in
  match h with
  | Does (PressEdit id0 _) => editing s' = Some id0
  | Settles _ true => editing s' = editing s ∨ editing s' = None
  | _ => editing s' = editing s
  end.
Proof.
  cbn zeta.
  pose proof (quiet_play hs _ (quiet_boot kv rnd)) as Hq.
  set (s := play toLowerCase hs (boot kv rnd)) in *.
  destruct h as [e|n ok].
  - destruct e as [text|query| |id0|id0 title0|id0| |]; cbn [happen].
    + done.
    + done.
    + by apply launch_quiet; [apply addOrUpdateTodo_starts|].
    + by apply launch_quiet; [apply handleDone_starts|].
    + done.
    + by apply launch_quiet; [apply deleteTodo_starts|].
    + done.
    + unfold editing. cbn [world react].
      by destruct (render_frame toLowerCase (world s)) as (-> & _).
  - destruct (settle_quiet n ok s Hq) as [_ [H|[Hok H]]];
      destruct ok; cbn [happen]; auto; done.
Qed.

End Flight.

(** X21: an update that waits for the store overrides what the user does
    in the meantime.  A press of the button with a text that is not blank
    and a truthy edit target changes nothing but the collection and goes
    to wait for its write.  Whenever the store later accepts that write,
    on whatever screen the intervening events and settlements have led to,
    the edit target is cleared and the text field emptied, even if another
    Edit was pressed or another text typed since; the message announces the
    edit; the collection of that moment is kept; and the store receives the
    array computed at the press, whatever the collection has become. *)
Theorem pending_update_overrides w others :
  trim (todoText (ui w)) ≠ [] →
  truthy_id (editingTodoId (ui w)) = true →
  let xs := retitle (ui w) <$> collection w in
  ∃ rest,
    launch (addOrUpdateTodo (ui w)) {| world := w; waiting := others |}
    = {| world := fireWith false addOrUpdateTodo w;
         waiting := others ++ [(AsyncStorage_setItem (js "my-todo") xs, rest)] |}
    ∧ ∀ s n,
        waiting s !! n = Some (AsyncStorage_setItem (js "my-todo") xs, rest) →
        let s' := settle n true s in
        editing s' = None
        ∧ todoText (ui (world s')) = []
        ∧ searchQuery (ui (world s')) = searchQuery (ui (world s))
        ∧ successMessage (ui (world s')) = js "Todo edited successfully!"
        ∧ collection (world s') = collection (world s)
        ∧ stored (world s') = xs
        ∧ waiting s' = delete n (waiting s).
Proof.
  intros Ht He xs.
  destruct (updateTodo_suspends w Ht He) as (rest & Hst & Hok & _).
  fold xs in Hst. exists rest. split.
  { unfold launch. cbn [world waiting]. by rewrite Hst. }
  intros s n E. cbn zeta. unfold settle. rewrite E.
  cbn [settleCall]. rewrite Hok. cbn [park].
  unfold editing, stored. cbn [world waiting]. clearbody xs.
  destruct s as [[h [l t q e m] st ef en dr] ws].
  cbn [world waiting]. run_async. by rewrite lookup_insert_eq.
Qed.

Lemma pending_update_overrides_witness :
  let w := exec (setTodoText (js "Buy oat milk"))
             (screen [buyMilk; cleanHouse] [] (Some (id buyMilk))) in
  let xs := retitle (ui w) <$> collection w in
  ∃ rest,
    launch (addOrUpdateTodo (ui w)) (idle w)
    = {| world := fireWith false addOrUpdateTodo w;
         waiting := [(AsyncStorage_setItem (js "my-todo") xs, rest)] |}
    ∧ ∀ s n,
        waiting s !! n = Some (AsyncStorage_setItem (js "my-todo") xs, rest) →
        let s' := settle n true s in
        editing s' = None
        ∧ todoText (ui (world s')) = []
        ∧ searchQuery (ui (world s')) = searchQuery (ui (world s))
        ∧ successMessage (ui (world s')) = js "Todo edited successfully!"
        ∧ collection (world s') = collection (world s)
        ∧ stored (world s') = xs
        ∧ waiting s' = delete n (waiting s).
Proof.
  assert (Ht : trim (todoText (ui (exec (setTodoText (js "Buy oat milk"))
                 (screen [buyMilk; cleanHouse] [] (Some (id buyMilk)))))) ≠ [])
    by (intros H; vm_compute in H; discriminate H).
  exact (pending_update_overrides _ [] Ht eq_refl).
Defined.

(** The store can fall behind: after a write that the store rejects, the
    collection holds the new task and the store does not. *)
Example rejected_write_leaves_store_behind :
  let s := play ascii_toLowerCase
             [Settles 0 true; Does (TypeText (js "Buy milk"));
              Does PressSubmit; Settles 0 false]
             (boot ∅ halving) in
  waiting s = []
  ∧ title <$> collection (world s) = [js "Buy milk"]
  ∧ stored (world s) = [].
Proof. by vm_compute. Qed.

(** An Edit pressed while an update waits is undone when the store accepts
    the update. *)
Example edit_pressed_while_update_waits :
  let s := play ascii_toLowerCase
             [Settles 0 true;
              Does (PressEdit (id buyMilk) (title buyMilk));
              Does (TypeText (js "Buy oat milk"));
              Does PressSubmit;
              Does (PressEdit (id cleanHouse) (title cleanHouse))]
             (boot {[js "my-todo" := [buyMilk; cleanHouse]]} halving) in
  editing s = Some (id cleanHouse)
  ∧ editing (settle 0 true s) = None
  ∧ todoText (ui (world (settle 0 true s))) = []
  ∧ title <$> collection (world (settle 0 true s))
    = [js "Buy oat milk"; js "Clean House"]
  ∧ editing (settle 0 false s) = Some (id cleanHouse).
Proof. by vm_compute. Qed.
